(** * Dev-Garden: the LeetCode-75 template scaffolder

    A shallow embedding of the content-generation script of the repository
    (the script that holds the [problems] table, [slugify],
    [generateProblemTemplate] and the [problems.forEach] loop), and the
    properties its specification states about it.

    Conventions of the embedding:
    - a JavaScript string is a [string]: a sequence of 8-bit code units.
      The script only ever inspects the ASCII range (the character class
      [[a-z0-9]] and the hyphen), every other code unit is opaque to it;
    - the file system is a finite map from path strings to nodes;
    - Node's platform services that the script calls but does not define
      ([__dirname], [path.join], whether the operating system lets a write
      succeed) are the fields of a [Host] record: every theorem holds for
      every host;
    - a thrown exception is the [Throw] result of a small state-and-error
      monad, which keeps the world as it was when the exception was thrown. *)

From stdpp Require Import gmap strings list fin_maps.
From Stdlib Require Import Ascii NArith DecimalString DecimalN.

(** ** Characters and strings *)

Module Char.

(** The range test [lo <= c <= hi] of a regular-expression class. *)
Definition in_range (lo hi c : ascii) : bool :=
  (lo <=? c)%char && (c <=? hi)%char.

(** The class [[a-z0-9]]. *)
Definition is_slug_char (c : ascii) : bool :=
  in_range "a" "z" c || in_range "0" "9" c.

(** The negated class [[^a-z0-9]]. *)
Definition not_slug_char (c : ascii) : bool := negb (is_slug_char c).

Definition is_hyphen (c : ascii) : bool := (c =? "-")%char.

(** [toLowerCase] on one code unit: [A-Z] go to [a-z], every other code
    unit is left as it is. *)
Definition toLower (c : ascii) : ascii :=
  if in_range "A" "Z" c
  then ascii_of_N (N_of_ascii c + 32)
  else c.

End Char.

(** [String.prototype.toLowerCase], on the code units of the embedding.
    The lower-casing of letters outside ASCII is not modelled: the titles
    are taken to be ASCII, as every title of the table is.  On other
    titles JavaScript differs: it can lengthen the string (U+0130 becomes
    two code units) and can produce an ASCII letter from a letter outside
    ASCII (U+212A becomes [k]). *)
Fixpoint toLowerCase (s : string) : string :=
  match s with
  | EmptyString => EmptyString
  | String c r => String (Char.toLower c) (toLowerCase r)
  end.

(** [Array.prototype.join] on an array of strings. *)
Fixpoint join (sep : string) (l : list string) : string :=
  match l with
  | [] => ""
  | [x] => x
  | x :: r => x +:+ sep +:+ join sep r
  end.

(** The double quote, as a one-character string. *)
Definition dquote : string := String "034"%char EmptyString.

(** The line feed, as a one-character string. *)
Definition LF : string := String "010"%char EmptyString.

(** [sub] occurs in [s] as a contiguous substring. *)
Definition occurs_in (sub s : string) : Prop :=
  exists pre post : string, s = pre +:+ sub +:+ post.

(** ** Regular expressions with the global flag

    The two patterns of [slugify] are given as matchers: a matcher is asked,
    at one position of the subject, for the length of the match that starts
    there.  It sees whether the position is the start of the subject (for
    [^]) and the rest of the subject from the position on (which also
    decides [$]). *)

Module Regex.

Definition matcher : Type := bool -> string -> option nat.

(** Length of the longest prefix of [s] made of characters in [p]. *)
Fixpoint span (p : ascii -> bool) (s : string) : nat :=
  match s with
  | EmptyString => 0
  | String c r => if p c then S (span p r) else 0
  end.

(** [/[^a-z0-9]+/]: one or more characters outside the class, greedy. *)
Definition non_slug_run : matcher :=
  fun _ s =>
    match span Char.not_slug_char s with
    | 0 => None
    | S n => Some (S n)
    end.

(** [/(^-|-$)/]: a hyphen at the start of the subject, or a hyphen that
    is the last character of the subject. *)
Definition edge_hyphen : matcher :=
  fun at_start s =>
    match s with
    | String c r =>
        if Char.is_hyphen c && (at_start || (r =? "")%string)
        then Some 1
        else None
    | EmptyString => None
    end.

(** [subject.replace(re, repl)] for a global [re] and a replacement
    string without [$] patterns: scan the subject from left to right; at
    a position where [re] matches, emit [repl] and go on after the match;
    elsewhere copy the character.  [skip] counts the characters of the
    current match that are still to be passed over.  An empty match emits
    [repl] and copies the character, as the engine does after it advances
    by one. *)
Fixpoint replace_from (re : matcher) (repl : string)
    (skip : nat) (at_start : bool) (s : string) : string :=
  match s with
  | EmptyString =>
      match skip, re at_start EmptyString with
      | 0, Some _ => repl
      | _, _ => EmptyString
      end
  | String c r =>
      match skip with
      | S k => replace_from re repl k false r
      | 0 =>
          match re at_start s with
          | Some (S k) => repl +:+ replace_from re repl k false r
          | Some 0 => repl +:+ String c (replace_from re repl 0 false r)
          | None => String c (replace_from re repl 0 false r)
          end
      end
  end.

Definition replace (re : matcher) (repl : string) (s : string) : string :=
  replace_from re repl 0 true s.

End Regex.

(** ** [slugify] *)

(** [title.toLowerCase().replace(/[^a-z0-9]+/g, '-').replace(/(^-|-$)/g, '')] *)
Definition slugify (title : string) : string :=
  Regex.replace Regex.edge_hyphen ""
    (Regex.replace Regex.non_slug_run "-"
       (toLowerCase title)).

(** *** The slug as the specification words it

    Lower-case the title, collapse every maximal run of characters outside
    [[a-z0-9]] to a single hyphen, strip leading and trailing hyphens. *)

Module SlugSpec.

(** The maximal runs of [s]: consecutive characters that agree on [p],
    each run labelled with the value of [p] on it. *)
Fixpoint runs (p : ascii -> bool) (s : string) : list (bool * string) :=
  match s with
  | EmptyString => []
  | String c r =>
      match runs p r with
      | (b, run) :: rest =>
          if Bool.eqb (p c) b
          then (b, String c run) :: rest
          else (p c, String c EmptyString) :: (b, run) :: rest
      | [] => [(p c, String c EmptyString)]
      end
  end.

(** A run outside the class becomes one hyphen, a run inside is kept. *)
Definition collapse_run (r : bool * string) : string :=
  if r.1 then "-" else r.2.

Definition collapse_runs (s : string) : string :=
  join "" (collapse_run <$> runs Char.not_slug_char s).

(** Remove every leading hyphen. *)
Fixpoint strip_leading (s : string) : string :=
  match s with
  | String c r => if Char.is_hyphen c then strip_leading r else s
  | EmptyString => EmptyString
  end.

(** Remove every trailing hyphen: strip the tail, and drop the head too
    when it is a hyphen with nothing left behind it. *)
Fixpoint strip_trailing (s : string) : string :=
  match s with
  | String c r =>
      match strip_trailing r with
      | EmptyString => if Char.is_hyphen c then EmptyString else String c EmptyString
      | r' => String c r'
      end
  | EmptyString => EmptyString
  end.

Definition slugify_spec (title : string) : string :=
  strip_trailing (strip_leading (collapse_runs (toLowerCase title))).

End SlugSpec.

(** ** The problem descriptors *)

(** One entry of the [problems] array.  [position] is a non-negative
    integer in every entry; [difficulty] is a plain string, the script
    never inspects it. *)
Record Problem := problem {
  folder : string;
  position : N;
  title : string;
  difficulty : string;
  tags : list string
}.

(** [`${n}`] for a non-negative integer: its decimal digits.  This is
    what JavaScript prints for the integers it represents exactly, those
    below [2^53] ([safe_integer] below); larger numbers are rounded, and
    from [10^21] on they are printed with an exponent. *)
Definition number_to_string (n : N) : string :=
  NilEmpty.string_of_uint (N.to_uint n).

(** The [problems] table of the script. *)
Definition problems : list Problem :=
  [
    (* Array / String *)
    problem "array-string" 1 "Merge Strings Alternately" "Easy" ["Array"; "Two Pointers"; "String"];
    problem "array-string" 2 "Greatest Common Divisor of Strings" "Easy" ["Math"; "String"];
    problem "array-string" 3 "Kids With the Greatest Number of Candies" "Easy" ["Array"];
    problem "array-string" 4 "Can Place Flowers" "Easy" ["Array"; "Greedy"];
    problem "array-string" 5 "Reverse Vowels of a String" "Easy" ["Two Pointers"; "String"];
    problem "array-string" 6 "Reverse Words in a String" "Medium" ["Two Pointers"; "String"];
    problem "array-string" 7 "Product of Array Except Self" "Medium" ["Array"; "Prefix Sum"];
    problem "array-string" 8 "Increasing Triplet Subsequence" "Medium" ["Array"; "Greedy"];
    problem "array-string" 9 "String Compression" "Medium" ["Two Pointers"; "String"];
    (* Two Pointers *)
    problem "two-pointers" 1 "Move Zeroes" "Easy" ["Array"; "Two Pointers"];
    problem "two-pointers" 2 "Is Subsequence" "Easy" ["Two Pointers"; "String"; "Dynamic Programming"];
    problem "two-pointers" 3 "Container With Most Water" "Medium" ["Array"; "Two Pointers"; "Greedy"];
    problem "two-pointers" 4 "Max Number of K-Sum Pairs" "Medium" ["Array"; "Hash Table"; "Two Pointers"; "Sorting"];
    (* Sliding Window *)
    problem "sliding-window" 1 "Maximum Average Subarray I" "Easy" ["Array"; "Sliding Window"];
    problem "sliding-window" 2 "Maximum Number of Vowels in a Substring of Given Length" "Medium" ["String"; "Sliding Window"];
    problem "sliding-window" 3 "Max Consecutive Ones III" "Medium" ["Array"; "Binary Search"; "Sliding Window"; "Prefix Sum"];
    problem "sliding-window" 4 "Longest Subarray of 1's After Deleting One Element" "Medium" ["Array"; "Dynamic Programming"; "Sliding Window"];
    (* Prefix Sum *)
    problem "prefix-sum" 1 "Find the Highest Altitude" "Easy" ["Array"; "Prefix Sum"];
    problem "prefix-sum" 2 "Find Pivot Index" "Easy" ["Array"; "Prefix Sum"];
    (* Hash Map / Set *)
    problem "hash-map-set" 1 "Find the Difference of Two Arrays" "Easy" ["Array"; "Hash Table"];
    problem "hash-map-set" 2 "Unique Number of Occurrences" "Easy" ["Array"; "Hash Table"];
    problem "hash-map-set" 3 "Determine if Two Strings Are Close" "Medium" ["Hash Table"; "String"; "Sorting"];
    problem "hash-map-set" 4 "Equal Row and Column Pairs" "Medium" ["Array"; "Hash Table"; "Matrix"; "Simulation"];
    (* Stack *)
    problem "stack" 1 "Removing Stars From a String" "Medium" ["String"; "Stack"; "Simulation"];
    problem "stack" 2 "Asteroid Collision" "Medium" ["Array"; "Stack"; "Simulation"];
    problem "stack" 3 "Decode String" "Medium" ["String"; "Stack"; "Recursion"];
    (* Queue *)
    problem "queue" 1 "Number of Recent Calls" "Easy" ["Design"; "Queue"; "Data Stream"];
    problem "queue" 2 "Dota2 Senate" "Medium" ["String"; "Greedy"; "Queue"];
    (* Linked List *)
    problem "linked-list" 1 "Delete the Middle Node of a Linked List" "Medium" ["Linked List"; "Two Pointers"];
    problem "linked-list" 2 "Odd Even Linked List" "Medium" ["Linked List"];
    problem "linked-list" 3 "Reverse Linked List" "Easy" ["Linked List"; "Recursion"];
    problem "linked-list" 4 "Maximum Twin Sum of a Linked List" "Medium" ["Linked List"; "Two Pointers"; "Stack"];
    (* Binary Tree - DFS *)
    problem "binary-tree-dfs" 1 "Maximum Depth of Binary Tree" "Easy" ["Tree"; "Depth-First Search"; "Breadth-First Search"; "Binary Tree"];
    problem "binary-tree-dfs" 2 "Leaf-Similar Trees" "Easy" ["Tree"; "Depth-First Search"; "Binary Tree"];
    problem "binary-tree-dfs" 3 "Count Good Nodes in Binary Tree" "Medium" ["Tree"; "Depth-First Search"; "Breadth-First Search"; "Binary Tree"];
    problem "binary-tree-dfs" 4 "Path Sum III" "Medium" ["Tree"; "Depth-First Search"; "Binary Tree"];
    problem "binary-tree-dfs" 5 "Longest ZigZag Path in a Binary Tree" "Medium" ["Dynamic Programming"; "Tree"; "Depth-First Search"; "Binary Tree"];
    problem "binary-tree-dfs" 6 "Lowest Common Ancestor of a Binary Tree" "Medium" ["Tree"; "Depth-First Search"; "Binary Tree"];
    (* Binary Tree - BFS *)
    problem "binary-tree-bfs" 1 "Binary Tree Right Side View" "Medium" ["Tree"; "Depth-First Search"; "Breadth-First Search"; "Binary Tree"];
    problem "binary-tree-bfs" 2 "Maximum Level Sum of a Binary Tree" "Medium" ["Tree"; "Depth-First Search"; "Breadth-First Search"; "Binary Tree"];
    (* Binary Search Tree *)
    problem "binary-search-tree" 1 "Search in a Binary Search Tree" "Easy" ["Tree"; "Binary Search Tree"; "Binary Tree"];
    problem "binary-search-tree" 2 "Delete Node in a BST" "Medium" ["Tree"; "Binary Search Tree"; "Binary Tree"];
    (* Graphs - DFS *)
    problem "graphs-dfs" 1 "Keys and Rooms" "Medium" ["Depth-First Search"; "Breadth-First Search"; "Graph"];
    problem "graphs-dfs" 2 "Number of Provinces" "Medium" ["Depth-First Search"; "Breadth-First Search"; "Union Find"; "Graph"];
    problem "graphs-dfs" 3 "Reorder Routes to Make All Paths Lead to the City Zero" "Medium" ["Depth-First Search"; "Breadth-First Search"; "Graph"];
    problem "graphs-dfs" 4 "Evaluate Division" "Medium" ["Array"; "Depth-First Search"; "Breadth-First Search"; "Union Find"; "Graph"; "Shortest Path"];
    (* Graphs - BFS *)
    problem "graphs-bfs" 1 "Nearest Exit from Entrance in Maze" "Medium" ["Array"; "Breadth-First Search"; "Matrix"];
    problem "graphs-bfs" 2 "Rotting Oranges" "Medium" ["Array"; "Breadth-First Search"; "Matrix"];
    (* Heap / Priority Queue *)
    problem "heap-priority-queue" 1 "Kth Largest Element in an Array" "Medium" ["Array"; "Divide and Conquer"; "Sorting"; "Heap (Priority Queue)"; "Quickselect"];
    problem "heap-priority-queue" 2 "Smallest Number in Infinite Set" "Medium" ["Hash Table"; "Design"; "Heap (Priority Queue)"];
    problem "heap-priority-queue" 3 "Maximum Subsequence Score" "Medium" ["Array"; "Greedy"; "Sorting"; "Heap (Priority Queue)"];
    problem "heap-priority-queue" 4 "Total Cost to Hire K Workers" "Medium" ["Array"; "Two Pointers"; "Simulation"; "Heap (Priority Queue)"];
    (* Binary Search *)
    problem "binary-search" 1 "Guess Number Higher or Lower" "Easy" ["Binary Search"; "Interactive"];
    problem "binary-search" 2 "Successful Pairs of Spells and Potions" "Medium" ["Array"; "Two Pointers"; "Binary Search"; "Sorting"];
    problem "binary-search" 3 "Find Peak Element" "Medium" ["Array"; "Binary Search"];
    problem "binary-search" 4 "Koko Eating Bananas" "Medium" ["Array"; "Binary Search"];
    (* Backtracking *)
    problem "backtracking" 1 "Letter Combinations of a Phone Number" "Medium" ["Hash Table"; "String"; "Backtracking"];
    problem "backtracking" 2 "Combination Sum III" "Medium" ["Array"; "Backtracking"];
    (* DP - 1D *)
    problem "dp-1d" 1 "N-th Tribonacci Number" "Easy" ["Math"; "Dynamic Programming"; "Memoization"];
    problem "dp-1d" 2 "Min Cost Climbing Stairs" "Easy" ["Array"; "Dynamic Programming"];
    problem "dp-1d" 3 "House Robber" "Medium" ["Array"; "Dynamic Programming"];
    problem "dp-1d" 4 "Domino and Tromino Tiling" "Medium" ["Dynamic Programming"];
    (* DP - Multidimensional *)
    problem "dp-multidimensional" 1 "Unique Paths" "Medium" ["Math"; "Dynamic Programming"; "Combinatorics"];
    problem "dp-multidimensional" 2 "Longest Common Subsequence" "Medium" ["String"; "Dynamic Programming"];
    problem "dp-multidimensional" 3 "Best Time to Buy and Sell Stock with Transaction Fee" "Medium" ["Array"; "Dynamic Programming"; "Greedy"];
    problem "dp-multidimensional" 4 "Edit Distance" "Medium" ["String"; "Dynamic Programming"];
    (* Bit Manipulation *)
    problem "bit-manipulation" 1 "Counting Bits" "Easy" ["Dynamic Programming"; "Bit Manipulation"];
    problem "bit-manipulation" 2 "Single Number" "Easy" ["Array"; "Bit Manipulation"];
    problem "bit-manipulation" 3 "Minimum Flips to Make a OR b Equal to c" "Medium" ["Bit Manipulation"];
    (* Trie *)
    problem "trie" 1 "Implement Trie (Prefix Tree)" "Medium" ["Hash Table"; "String"; "Design"; "Trie"];
    problem "trie" 2 "Search Suggestions System" "Medium" ["Array"; "String"; "Trie"; "Sorting"; "Heap (Priority Queue)"];
    (* Intervals *)
    problem "intervals" 1 "Non-overlapping Intervals" "Medium" ["Array"; "Dynamic Programming"; "Greedy"; "Sorting"];
    problem "intervals" 2 "Minimum Number of Arrows to Burst Balloons" "Medium" ["Array"; "Greedy"; "Sorting"];
    (* Monotonic Stack *)
    problem "monotonic-stack" 1 "Daily Temperatures" "Medium" ["Array"; "Stack"; "Monotonic Stack"];
    problem "monotonic-stack" 2 "Online Stock Span" "Medium" ["Stack"; "Design"; "Monotonic Stack"; "Data Stream"]
  ].

(** ** [generateProblemTemplate] *)

(** [problem.tags.map(tag => `"${tag}"`).join(', ')] *)
Definition tagsString (p : Problem) : string :=
  join ", " ((fun tag => dquote +:+ tag +:+ dquote) <$> tags p).

(** The fixed text of the template after the link to the problem, up to
    the title in the code comment. *)
Definition template_sections : string :=
"/)

***

### Problem Statement

_Add problem description here._

***

### Intuition

_Explain the core idea behind your solution._

***

### Approach

1. _Step 1 description_
2. _Step 2 description_
3. _Step 3 description_

***

### Complexity

#### Time complexity: $O(N)$

_Explain time complexity._

#### Space complexity: $O(1)$

_Explain space complexity._

***

### Code

```javascript
/**
 * Solution for ".

(** The fixed text that ends the template. *)
Definition template_tail : string :=
"
 */
function solution() {
    // Your code here
}
```

***

### Notes

_Add any additional notes, edge cases, or alternative approaches here._
".

Definition generateProblemTemplate (p : Problem) : string :=
  let slug := slugify (title p) in
  let tagsString := tagsString p in
  "---" +:+ LF +:+
  "sidebar_position: " +:+ number_to_string (position p) +:+ LF +:+
  "title: " +:+ dquote +:+ title p +:+ dquote +:+ LF +:+
  "tags: [" +:+ tagsString +:+ "]" +:+ LF +:+
  "---" +:+ LF +:+
  LF +:+
  "# " +:+ title p +:+ LF +:+
  LF +:+
  "> **Difficulty:** " +:+ difficulty p +:+ LF +:+
  LF +:+
  "[View on LeetCode](https://leetcode.com/problems/" +:+ slug +:+
  template_sections +:+ title p +:+ template_tail.

(** ** The file system, the console and the host *)

(** What a path can hold.  [fs.existsSync] does not tell the two apart. *)
Inductive node : Type :=
  | File (data : string)
  | Dir.

Inductive Error : Type :=
  | IOError (path : string).

(** What the script takes from Node and the operating system: the
    directory of the script, [path.join], and whether a write of [data] at
    [path] goes through on the current disk (the parent directory exists,
    permissions allow it, there is room). *)
Record Host := {
  __dirname : string;
  path_join : list string -> string;
  write_ok : gmap string node -> string -> string -> bool
}.

(** The state the script acts on: the files, and the lines printed so far
    on standard output (one entry per call of [console.log]). *)
Record World := {
  disk : gmap string node;
  stdout : list string
}.

(** The result of a computation: a value, or a thrown exception; in both
    cases with the world as the computation left it. *)
Inductive Result (A : Type) : Type :=
  | Ok (a : A) (w : World)
  | Throw (e : Error) (w : World).
Arguments Ok {A} a w.
Arguments Throw {A} e w.

Definition M (A : Type) : Type := World -> Result A.

Definition ret {A} (a : A) : M A := fun w => Ok a w.

Definition bind {A B} (m : M A) (k : A -> M B) : M B :=
  fun w =>
    match m w with
    | Ok a w' => k a w'
    | Throw e w' => Throw e w'
    end.

Notation "'let*' x ':=' m 'in' k" := (bind m (fun x => k))
  (at level 10, x name, m at level 100, k at level 200).
Notation "m ;; k" := (bind m (fun _ => k))
  (at level 100, k at level 200, right associativity).

Definition world_of {A} (r : Result A) : World :=
  match r with
  | Ok _ w => w
  | Throw _ w => w
  end.

(** [fs.existsSync(path)]: true when the path holds anything. *)
Definition existsSync (path : string) : M bool :=
  fun w => Ok (bool_decide (is_Some (disk w !! path))) w.

(** [fs.writeFileSync(path, data, 'utf8')]: creates the file or replaces
    its content; throws, and leaves the disk as it is, when the host
    refuses the write or the path is a directory.  A refused write is one
    that fails when the file is opened: a write that fails after the file
    was opened (and so created or emptied) is not modelled. *)
Definition writeFileSync (h : Host) (path data : string) : M unit :=
  fun w =>
    if write_ok h (disk w) path data then
      match disk w !! path with
      | Some Dir => Throw (IOError path) w
      | _ => Ok tt {| disk := <[path := File data]> (disk w); stdout := stdout w |}
      end
    else Throw (IOError path) w.

(** [console.log(line)].  The standard output is kept as the list of the
    arguments of the calls; the bytes written are [stdout_bytes] of that
    list, each argument followed by a line feed. *)
Definition console_log (line : string) : M unit :=
  fun w => Ok tt {| disk := disk w; stdout := stdout w ++ [line] |}.

(** [array.forEach(callback)]: the callback runs on each element in order;
    an exception thrown by the callback ends the loop. *)
Fixpoint forEach {A} (callback : A -> M unit) (l : list A) : M unit :=
  match l with
  | [] => ret tt
  | x :: r => callback x ;; forEach callback r
  end.

(** ** The script *)

Definition skipped_line (filepath : string) : string :=
  "‚è≠Ô∏è  Skipping (already exists): " +:+ filepath.

Definition created_line (filepath : string) : string :=
  "‚úÖ Created: " +:+ filepath.

Definition summary_line : string :=
  LF +:+ "üéâ All LeetCode 75 problem files generated!".

Section Script.

Context (h : Host).

(** [path.join(__dirname, '..', 'docs', 'leetcode-75', problem.folder)] *)
Definition docsPath (p : Problem) : string :=
  path_join h [__dirname h; ".."; "docs"; "leetcode-75"; folder p].

(** [`${slug}.mdx`] *)
Definition filename (p : Problem) : string :=
  slugify (title p) +:+ ".mdx".

(** [path.join(docsPath, filename)] *)
Definition filepath (p : Problem) : string :=
  path_join h [docsPath p; filename p].

(** The callback of [problems.forEach]. *)
Definition scaffold_one (p : Problem) : M unit :=
  let filepath := filepath p in
  let* found := existsSync filepath in
  if found then
    console_log (skipped_line filepath)
  else
    let content := generateProblemTemplate p in
    writeFileSync h filepath content ;;
    console_log (created_line filepath).

(** The script on a list of descriptors: the loop, then the last
    [console.log]. *)
Definition scaffold (ps : list Problem) : M unit :=
  forEach scaffold_one ps ;;
  console_log summary_line.

(** The script as it stands, on its own table. *)
Definition main : M unit := scaffold problems.

End Script.


(** ** The report of a run

    The script returns nothing: what it did is what it printed.  The report
    of the specification is read off the lines: one outcome per descriptor,
    [created] or [skipped], carrying the path. *)

Inductive Outcome : Type :=
  | created (path : string)
  | skipped (path : string).

Definition outcome_line (o : Outcome) : string :=
  match o with
  | created path => created_line path
  | skipped path => skipped_line path
  end.

Definition is_created (o : Outcome) : bool :=
  match o with
  | created _ => true
  | skipped _ => false
  end.

(** The lines that a run from [w] to [w'] added to standard output. *)
Definition printed (w w' : World) : list string :=
  drop (length (stdout w)) (stdout w').

Section Reference.

Context (h : Host).

(** The outcomes of a run in which every write goes through, from the
    disk [d]. *)
Fixpoint report (d : gmap string node) (ps : list Problem) : list Outcome :=
  match ps with
  | [] => []
  | p :: r =>
      if bool_decide (is_Some (d !! filepath h p))
      then skipped (filepath h p) :: report d r
      else created (filepath h p)
             :: report (<[filepath h p := File (generateProblemTemplate p)]> d) r
  end.

(** The disk that such a run leaves. *)
Fixpoint disk_after (d : gmap string node) (ps : list Problem) : gmap string node :=
  match ps with
  | [] => d
  | p :: r =>
      if bool_decide (is_Some (d !! filepath h p))
      then disk_after d r
      else disk_after (<[filepath h p := File (generateProblemTemplate p)]> d) r
  end.

(** The final counts of a report: how many created, how many skipped. *)
Definition counts (d : gmap string node) (ps : list Problem) : nat * nat :=
  (length (filter (fun o => is_created o = true) (report d ps)),
   length (filter (fun o => is_created o = false) (report d ps))).

End Reference.

(** Every character of [s] is in [p]. *)
Fixpoint all_chars (p : ascii -> bool) (s : string) : bool :=
  match s with
  | EmptyString => true
  | String c r => p c && all_chars p r
  end.

(** ** A reference host: POSIX [path.join]

    The paths of the examples are computed with Node's [path.join] for
    POSIX: the non-empty arguments joined with a slash, then normalised
    (empty and [.] segments dropped, [..] resolved against the segment
    before it, a leading and a trailing slash kept). *)

Module Posix.

(** [path.split('/')] *)
Fixpoint split (path : string) : list string :=
  match path with
  | EmptyString => [EmptyString]
  | String c r =>
      match split r with
      | seg :: rest =>
          if (c =? "/")%char then EmptyString :: seg :: rest
          else String c seg :: rest
      | [] => [String c EmptyString]
      end
  end.

(** One segment pushed on the stack of the segments kept so far (the last
    one first). *)
Definition push_segment (allowAboveRoot : bool)
    (stack : list string) (seg : string) : list string :=
  if (seg =? "")%string || (seg =? ".")%string then stack
  else if (seg =? "..")%string then
    match stack with
    | top :: rest =>
        if (top =? "..")%string
        then (if allowAboveRoot then seg :: stack else stack)
        else rest
    | [] => if allowAboveRoot then [seg] else []
    end
  else seg :: stack.

Definition normalizeString (path : string) (allowAboveRoot : bool) : string :=
  join "/" (rev (foldl (push_segment allowAboveRoot) [] (split path))).

Definition starts_with_slash (path : string) : bool :=
  match path with
  | String c _ => (c =? "/")%char
  | EmptyString => false
  end.

Fixpoint ends_with_slash (path : string) : bool :=
  match path with
  | EmptyString => false
  | String c EmptyString => (c =? "/")%char
  | String _ r => ends_with_slash r
  end.

Definition normalize (path : string) : string :=
  if (path =? "")%string then "."
  else
    let isAbsolute := starts_with_slash path in
    let trailingSeparator := ends_with_slash path in
    let body := normalizeString path (negb isAbsolute) in
    if (body =? "")%string then
      if isAbsolute then "/" else if trailingSeparator then "./" else "."
    else
      (if isAbsolute then "/" else "") +:+ body +:+
      (if trailingSeparator then "/" else "").

Definition join_path (args : list string) : string :=
  match filter (fun arg => arg ≠ "") args with
  | [] => "."
  | parts => normalize (join "/" parts)
  end.

(** [path.dirname] of a normalised path that does not end in a slash. *)
Definition dirname (path : string) : string :=
  let dir := join "/" (removelast (split path)) in
  if (dir =? "")%string
  then (if starts_with_slash path then "/" else ".")
  else dir.

(** A host in which every write goes through. *)
Definition permissive (dir : string) : Host :=
  {| __dirname := dir;
     path_join := join_path;
     write_ok := fun _ _ _ => true |}.

(** A host in which a write goes through when the parent directory of
    the path exists. *)
Definition strict (dir : string) : Host :=
  {| __dirname := dir;
     path_join := join_path;
     write_ok := fun d path _ =>
       match d !! dirname path with
       | Some Dir => true
       | _ => false
       end |}.

End Posix.

(** ** Worlds of the examples *)

Definition empty_world : World := {| disk := ∅; stdout := [] |}.

(** The descriptor of the specification's example. *)
Definition removing_stars : Problem :=
  problem "stack" 1 "Removing Stars From a String" "Medium"
    ["String"; "Stack"; "Simulation"].

(** A second descriptor with the slug and folder of [removing_stars]. *)
Definition removing_stars_twin : Problem :=
  problem "stack" 7 "removing stars: from a STRING!" "Hard" ["Twin"].

(** A descriptor whose title has no character of the class. *)
Definition punctuation_only : Problem :=
  problem "stack" 9 "?!" "Easy" [].

(** A disk with the category directory of the stack problems, and nothing
    in it. *)
Definition stack_dir_only : World :=
  {| disk := {[ "/repo/docs/leetcode-75/stack" := Dir ]}; stdout := [] |}.
(** The host of the examples: POSIX paths, the script in [/repo/scripts],
    and writes that need the parent directory. *)
Definition demo_host : Host := Posix.strict "/repo/scripts".

(** The target of [removing_stars] on the host of the examples. *)
Definition removing_stars_path : string :=
  "/repo/docs/leetcode-75/stack/removing-stars-from-a-string.mdx".

(** A disk on which the note of [removing_stars] was already written by
    hand. *)
Definition hand_edited : World :=
  {| disk := {[ "/repo/docs/leetcode-75/stack" := Dir;
                removing_stars_path := File "my own notes" ]};
     stdout := [] |}.

(** Three descriptors of one folder: the second collides with the first,
    the third has an empty slug. *)
Definition demo_problems : list Problem :=
  [removing_stars; removing_stars_twin; punctuation_only].

(** The world that the first run on [demo_problems] leaves. *)
Definition after_first_run : World :=
  world_of (scaffold demo_host demo_problems stack_dir_only).

(** A descriptor of another folder. *)
Definition queue_calls : Problem :=
  problem "queue" 1 "Number of Recent Calls" "Easy" ["Design"; "Queue"].

(** ** Auxiliary definitions of the proofs *)

(** The first replacement of [slugify] as a scan with one bit of state:
    whether the scan is inside a run of characters outside the class. *)
Fixpoint collapse_from (in_run : bool) (s : string) : string :=
  match s with
  | EmptyString => EmptyString
  | String c r =>
      if Char.not_slug_char c
      then (if in_run then collapse_from true r
            else String "-" (collapse_from true r))
      else String c (collapse_from false r)
  end.

Definition starts_hyphen (s : string) : bool :=
  match s with
  | String c _ => Char.is_hyphen c
  | EmptyString => false
  end.

(** No two hyphens in a row. *)
Fixpoint sparse (s : string) : bool :=
  match s with
  | EmptyString => true
  | String c r => negb (Char.is_hyphen c && starts_hyphen r) && sparse r
  end.

(** The world after a line is printed. *)
Definition with_line (w : World) (line : string) : World :=
  {| disk := disk w; stdout := stdout w ++ [line] |}.

(** The world after a file is written. *)
Definition with_file (w : World) (path data : string) : World :=
  {| disk := <[path := File data]> (disk w); stdout := stdout w |}.

(** The three ways a descriptor can go. *)
Inductive step_case (h : Host) (p : Problem) (w : World) : Result unit -> Prop :=
  | step_skip :
      is_Some (disk w !! filepath h p) ->
      step_case h p w (Ok tt (with_line w (skipped_line (filepath h p))))
  | step_create :
      disk w !! filepath h p = None ->
      write_ok h (disk w) (filepath h p) (generateProblemTemplate p) = true ->
      step_case h p w
        (Ok tt (with_line
                  (with_file w (filepath h p) (generateProblemTemplate p))
                  (created_line (filepath h p))))
  | step_throw :
      disk w !! filepath h p = None ->
      write_ok h (disk w) (filepath h p) (generateProblemTemplate p) = false ->
      step_case h p w (Throw (IOError (filepath h p)) w).

(** A path segment that normalisation keeps as it is: not empty, without
    a slash, and neither [.] nor [..]. *)
Definition not_slash (c : ascii) : bool := negb (c =? "/")%char.

(** The characters of a slug. *)
Definition slug_or_hyphen (c : ascii) : bool :=
  Char.is_slug_char c || Char.is_hyphen c.

Definition plain_segment (seg : string) : bool :=
  all_chars not_slash seg
  && negb (String.eqb seg "")
  && negb (String.eqb seg ".")
  && negb (String.eqb seg "..").

(** ** Definitions of the further properties *)

(** The last character is a hyphen. *)
Fixpoint ends_hyphen (s : string) : bool :=
  match s with
  | EmptyString => false
  | String c EmptyString => Char.is_hyphen c
  | String _ r => ends_hyphen r
  end.

(** The shape of a slug: characters of [[a-z0-9]] and hyphens, no two
    hyphens in a row, no hyphen at either end. *)
Definition is_slug (s : string) : bool :=
  all_chars slug_or_hyphen s
  && sparse s
  && negb (starts_hyphen s)
  && negb (ends_hyphen s).

(** The first character is in [[a-z0-9]]. *)
Definition starts_slug (s : string) : bool :=
  match s with
  | String c _ => Char.is_slug_char c
  | EmptyString => false
  end.

(** The words of a string: its maximal runs of characters of
    [[a-z0-9]], in order. *)
Fixpoint slug_words (s : string) : list string :=
  match s with
  | EmptyString => []
  | String c r =>
      if Char.is_slug_char c then
        match slug_words r with
        | w :: ws =>
            if starts_slug r then String c w :: ws
            else String c EmptyString :: w :: ws
        | [] => [String c EmptyString]
        end
      else slug_words r
  end.

(** Two slugs put together: with a hyphen between them when neither is
    empty. *)
Definition glue (x y : string) : string :=
  if String.eqb x "" then y
  else if String.eqb y "" then x
  else x +:+ "-" +:+ y.

(** The first descriptor of the list whose target is [path]. *)
Fixpoint first_target (h : Host) (path : string) (ps : list Problem)
    : option Problem :=
  match ps with
  | [] => None
  | p :: r =>
      if decide (filepath h p = path) then Some p
      else first_target h path r
  end.

(** The directory under which the directories of the categories are:
    [docs/leetcode-75] next to the directory of the script (the first four
    arguments of the [path.join] of the script). *)
Definition baseDir (h : Host) : string :=
  path_join h [__dirname h; ".."; "docs"; "leetcode-75"].

(** The stacks that [Posix.normalizeString] builds: plain segments, and
    above them, for a relative path only, the [..] that found nothing to
    remove. *)
Definition stack_ok (allow : bool) (stack : list string) : Prop :=
  exists (plains : list string) (k : nat),
    stack = plains ++ replicate k ".."
    /\ Forall (fun seg => plain_segment seg = true) plains
    /\ (k <> 0 -> allow = true).

(** *** Reading a decimal numeral

    The number that a string of decimal digits denotes, read digit by
    digit.  A numeral has at least one digit, and no leading zero unless
    it is ["0"]. *)
Definition digit_value (c : ascii) : option N :=
  if Char.in_range "0" "9" c
  then Some (N_of_ascii c - N_of_ascii "0")%N
  else None.

(** The digits of [s] read after a numeral whose value is [acc]. *)
Fixpoint digits_value (acc : N) (s : string) : option N :=
  match s with
  | EmptyString => Some acc
  | String c r =>
      match digit_value c with
      | Some k => digits_value (10 * acc + k) r
      | None => None
      end
  end.

(** The value of a decimal numeral; [None] for any other string. *)
Definition decimal_value (s : string) : option N :=
  match s with
  | EmptyString => None
  | String c r =>
      if (c =? "0")%char && negb (String.eqb r "") then None
      else digits_value 0 s
  end.

(** The integers that a JavaScript number represents exactly. *)
Definition safe_integer (n : N) : Prop := (n < 2 ^ 53)%N.

(** *** The standard output as bytes

    [console.log] writes its argument and a line feed. *)
Definition stdout_bytes (lines : list string) : string :=
  foldr (fun line rest => line +:+ LF +:+ rest) "" lines.

Definition not_newline (c : ascii) : bool := negb (c =? "010")%char.

(** The path that an outcome reports. *)
Definition outcome_path (o : Outcome) : string :=
  match o with
  | created path => path
  | skipped path => path
  end.

(** * Properties *)

(** ** Examples *)

Example slugify_tribonacci :
  slugify "N-th Tribonacci Number" = "n-th-tribonacci-number".
Proof. reflexivity. Qed.

Example slugify_apostrophe :
  slugify "Longest Subarray of 1's After Deleting One Element"
  = "longest-subarray-of-1-s-after-deleting-one-element".
Proof. reflexivity. Qed.

Example slugify_parenthesis :
  slugify "Implement Trie (Prefix Tree)" = "implement-trie-prefix-tree".
Proof. reflexivity. Qed.

Example slugify_spec_tribonacci :
  SlugSpec.slugify_spec "  --N-th   Tribonacci Number!!--"
  = "n-th-tribonacci-number".
Proof. reflexivity. Qed.

Example slugify_edge_cases :
  slugify "!!!" = "" /\ slugify "" = "" /\ slugify "--a--" = "a"
  /\ Regex.replace Regex.edge_hyphen "" "---" = "-"
  /\ SlugSpec.strip_trailing "-a---" = "-a"
  /\ SlugSpec.runs Char.not_slug_char "ab  c" = [(false,"ab"); (true,"  "); (false,"c")].
Proof. repeat split; reflexivity. Qed.

Example posix_join_examples :
  Posix.join_path ["/repo/scripts"; ".."; "docs"; "leetcode-75"; "stack"]
    = "/repo/docs/leetcode-75/stack"
  /\ Posix.join_path ["/repo/docs/leetcode-75/stack"; "a.mdx"]
    = "/repo/docs/leetcode-75/stack/a.mdx"
  /\ Posix.join_path ["a"; ""; "b/"; "../c/"] = "a/c/"
  /\ Posix.join_path [""; ""] = "."
  /\ Posix.join_path [".."; ".."; "a"; "."; "b"] = "../../a/b"
  /\ Posix.join_path ["/"; ".."; "a//b"] = "/a/b"
  /\ Posix.dirname "/repo/docs/leetcode-75/stack/a.mdx" = "/repo/docs/leetcode-75/stack"
  /\ Posix.dirname "/a.mdx" = "/"
  /\ Posix.dirname "a.mdx" = "."
  /\ Posix.join_path
       [Posix.join_path ["../x/"; ".."; "docs"; "leetcode-75"]; "a/../.."; ".mdx"]
     = Posix.join_path
         [Posix.join_path ["../x/"; ".."; "docs"; "leetcode-75"; "a/../.."];
          ".mdx"].
Proof. repeat split; vm_compute; reflexivity. Qed.

Example decimal_value_examples :
  decimal_value "75" = Some 75%N
  /\ decimal_value "0" = Some 0%N
  /\ decimal_value "" = None
  /\ decimal_value "075" = None
  /\ decimal_value "7e5" = None
  /\ number_to_string 75 = "75"
  /\ stdout_bytes ["a"; "b"] = "a" +:+ LF +:+ "b" +:+ LF.
Proof. repeat split; vm_compute; reflexivity. Qed.

Example template_head :
  exists rest,
    generateProblemTemplate removing_stars
    = "---" +:+ LF +:+ "sidebar_position: 1" +:+ LF +:+
      "title: " +:+ dquote +:+ "Removing Stars From a String" +:+ dquote +:+ LF +:+
      "tags: [" +:+ dquote +:+ "String" +:+ dquote +:+ ", " +:+
                   dquote +:+ "Stack" +:+ dquote +:+ ", " +:+
                   dquote +:+ "Simulation" +:+ dquote +:+ "]" +:+ LF +:+
      "---" +:+ LF +:+ rest.
Proof. eexists. vm_compute. reflexivity. Qed.

(** ** Strings *)

Lemma append_empty_l (s : string) : "" +:+ s = s.
Proof. reflexivity. Qed.

Lemma append_cons (c : ascii) (s t : string) :
  String c s +:+ t = String c (s +:+ t).
Proof. reflexivity. Qed.

Lemma append_empty_r (s : string) : s +:+ "" = s.
Proof.
  induction s as [|c s IH]; [reflexivity|]. by rewrite append_cons, IH.
Qed.

Lemma append_assoc (a b c : string) : (a +:+ b) +:+ c = a +:+ (b +:+ c).
Proof.
  induction a as [|x a IH]; [reflexivity|]. by rewrite !append_cons, IH.
Qed.

Lemma join_empty_cons (x : string) (l : list string) :
  join "" (x :: l) = x +:+ join "" l.
Proof. destruct l; cbn [join]; [by rewrite append_empty_r | reflexivity]. Qed.

Lemma hyphen_not_slug_char (c : ascii) :
  Char.is_hyphen c = true -> Char.not_slug_char c = true.
Proof.
  unfold Char.is_hyphen. intros H. apply Ascii.eqb_eq in H. by subst c.
Qed.

Lemma slug_char_not_hyphen (c : ascii) :
  Char.not_slug_char c = false -> Char.is_hyphen c = false.
Proof.
  intros H. destruct (Char.is_hyphen c) eqn:E; [|reflexivity].
  apply hyphen_not_slug_char in E. congruence.
Qed.

Lemma toLower_idempotent (c : ascii) :
  Char.toLower (Char.toLower c) = Char.toLower c.
Proof. destruct c as [[] [] [] [] [] [] [] []]; reflexivity. Qed.

Lemma toLowerCase_idempotent (s : string) :
  toLowerCase (toLowerCase s) = toLowerCase s.
Proof.
  induction s as [|c s IH]; simpl; [reflexivity|].
  by rewrite toLower_idempotent, IH.
Qed.

(** ** [slugify] against its specification *)

Section SlugifyRefinement.

Import Regex SlugSpec.

Lemma non_slug_run_cons (b : bool) (c : ascii) (r : string) :
  non_slug_run b (String c r)
  = if Char.not_slug_char c then Some (S (span Char.not_slug_char r)) else None.
Proof.
  unfold non_slug_run. cbn [span]. by destruct (Char.not_slug_char c).
Qed.

Lemma replace_from_cons (re : matcher) (repl : string) (b : bool)
    (c : ascii) (r : string) :
  replace_from re repl 0 b (String c r)
  = match re b (String c r) with
    | Some (S k) => repl +:+ replace_from re repl k false r
    | Some 0 => repl +:+ String c (replace_from re repl 0 false r)
    | None => String c (replace_from re repl 0 false r)
    end.
Proof. reflexivity. Qed.

(** The engine on [/[^a-z0-9]+/g] is the one-bit scan: started outside a
    match it is the scan outside a run, and with the rest of a match still
    to skip it is the scan inside a run. *)
Lemma replace_run_scan (s : string) (b : bool) :
  replace_from non_slug_run "-" 0 b s = collapse_from false s
  /\ replace_from non_slug_run "-" (span Char.not_slug_char s) false s
     = collapse_from true s.
Proof.
  revert b. induction s as [|c r IH]; intros b; [split; reflexivity|].
  destruct (IH false) as [IH0 IH1].
  rewrite replace_from_cons, non_slug_run_cons.
  cbn [span collapse_from].
  destruct (Char.not_slug_char c) eqn:Hc.
  - rewrite IH1. split; [reflexivity|]. cbn [replace_from]. exact IH1.
  - rewrite IH0. split; [reflexivity|].
    by rewrite replace_from_cons, non_slug_run_cons, Hc, IH0.
Qed.

Lemma replace_run_collapse_from (s : string) :
  replace non_slug_run "-" s = collapse_from false s.
Proof. apply replace_run_scan. Qed.

(** The one-bit scan against the runs of the specification. *)
Lemma collapse_from_runs (s : string) :
  collapse_from false s = join "" (collapse_run <$> runs Char.not_slug_char s)
  /\ collapse_from true s
     = match runs Char.not_slug_char s with
       | (true, _) :: rest => join "" (collapse_run <$> rest)
       | l => join "" (collapse_run <$> l)
       end.
Proof.
  induction s as [|c r [IH0 IH1]]; [split; reflexivity|].
  cbn [collapse_from runs].
  destruct (Char.not_slug_char c) eqn:Hc;
    destruct (runs Char.not_slug_char r) as [|[[] run] rest];
    cbn [Bool.eqb fmap list_fmap] in *;
    rewrite ?join_empty_cons in *; cbn [collapse_run fst snd] in *;
    rewrite ?IH0, ?IH1; split; reflexivity.
Qed.

Lemma collapse_from_sparse (s : string) :
  sparse (collapse_from false s) = true
  /\ sparse (collapse_from true s) = true
  /\ starts_hyphen (collapse_from true s) = false.
Proof.
  induction s as [|c r (IH0 & IH1 & IH2)]; [repeat split; reflexivity|].
  cbn [collapse_from]. destruct (Char.not_slug_char c) eqn:Hc.
  - cbn [sparse]. rewrite IH1, IH2, Bool.andb_false_r. repeat split; done.
  - cbn [sparse starts_hyphen]. rewrite (slug_char_not_hyphen c Hc), IH0.
    repeat split; reflexivity.
Qed.

Lemma strip_leading_id (s : string) :
  starts_hyphen s = false -> strip_leading s = s.
Proof. destruct s as [|c r]; simpl; [done|]. by intros ->. Qed.

Lemma strip_trailing_nonempty (s : string) :
  s <> "" -> starts_hyphen s = false -> strip_trailing s <> "".
Proof.
  destruct s as [|c r]; [done|]. cbn [starts_hyphen strip_trailing].
  intros _ ->. by destruct (strip_trailing r).
Qed.

(** Past the start of the subject, [/(^-|-$)/g] removes a last hyphen. *)
Lemma replace_edge_inner (s : string) :
  sparse s = true ->
  replace_from edge_hyphen "" 0 false s = strip_trailing s.
Proof.
  induction s as [|c r IH]; [reflexivity|].
  cbn [sparse]. intros [Hc Hr]%andb_prop. specialize (IH Hr).
  cbn [replace_from edge_hyphen strip_trailing orb].
  destruct (Char.is_hyphen c) eqn:Eh; cbn [andb].
  - destruct r as [|d r']; [reflexivity|].
    change (String d r' =? "")%string with false. cbv iota.
    rewrite IH. cbn [andb negb] in Hc.
    apply Bool.negb_true_iff in Hc.
    pose proof (strip_trailing_nonempty (String d r') ltac:(done) Hc) as Hne.
    by destruct (strip_trailing (String d r')).
  - rewrite IH. by destruct (strip_trailing r).
Qed.

Lemma replace_edge_strip (s : string) :
  sparse s = true ->
  replace edge_hyphen "" s = strip_trailing (strip_leading s).
Proof.
  intros Hs. destruct s as [|c r]; [reflexivity|].
  destruct (Char.is_hyphen c) eqn:Eh.
  - cbn [sparse] in Hs. apply andb_prop in Hs as [Hc Hr].
    rewrite Eh in Hc. cbn [andb] in Hc. apply Bool.negb_true_iff in Hc.
    unfold replace. cbn [replace_from edge_hyphen orb strip_leading].
    rewrite Eh. cbn [andb]. cbv iota.
    rewrite (strip_leading_id r Hc). cbn [String.append].
    by apply replace_edge_inner.
  - rewrite (strip_leading_id (String c r)) by exact Eh.
    rewrite <- (replace_edge_inner _ Hs).
    unfold replace. rewrite !replace_from_cons. cbn [edge_hyphen].
    by rewrite Eh.
Qed.

End SlugifyRefinement.

(** C3.  [slugify] computes the slug of the specification: for every
    title, the title lower-cased, every maximal run of characters outside
    [[a-z0-9]] collapsed to one hyphen, leading and trailing hyphens
    stripped.  It is a function of the title alone, blind to case, and
    sends "N-th Tribonacci Number" to "n-th-tribonacci-number". *)
Theorem slugify_correct :
  (forall title : string, slugify title = SlugSpec.slugify_spec title)
  /\ (forall title : string, slugify (toLowerCase title) = slugify title)
  /\ slugify "N-th Tribonacci Number" = "n-th-tribonacci-number".
Proof.
  split; [|split; [|reflexivity]].
  - intros title. unfold slugify, SlugSpec.slugify_spec, SlugSpec.collapse_runs.
    rewrite replace_run_collapse_from.
    rewrite replace_edge_strip by apply collapse_from_sparse.
    by rewrite (proj1 (collapse_from_runs _)).
  - intros title. unfold slugify. by rewrite toLowerCase_idempotent.
Qed.

(** ** One descriptor *)

Section Runs.

Context (h : Host).

Implicit Types (p : Problem) (ps : list Problem) (w : World)
  (d : gmap string node).

Lemma scaffold_one_skip p w :
  is_Some (disk w !! filepath h p) ->
  scaffold_one h p w = Ok tt (with_line w (skipped_line (filepath h p))).
Proof.
  intros Hex. unfold scaffold_one, bind, existsSync.
  by rewrite bool_decide_eq_true_2.
Qed.

Lemma scaffold_one_create p w :
  disk w !! filepath h p = None ->
  write_ok h (disk w) (filepath h p) (generateProblemTemplate p) = true ->
  scaffold_one h p w
  = Ok tt (with_line (with_file w (filepath h p) (generateProblemTemplate p))
               (created_line (filepath h p))).
Proof.
  intros Hno Hok. unfold scaffold_one, bind, existsSync, writeFileSync.
  rewrite bool_decide_eq_false_2 by (rewrite Hno; by intros [? ?]).
  by rewrite Hok, Hno.
Qed.

Lemma scaffold_one_throw p w :
  disk w !! filepath h p = None ->
  write_ok h (disk w) (filepath h p) (generateProblemTemplate p) = false ->
  scaffold_one h p w = Throw (IOError (filepath h p)) w.
Proof.
  intros Hno Hok. unfold scaffold_one, bind, existsSync, writeFileSync.
  rewrite bool_decide_eq_false_2 by (rewrite Hno; by intros [? ?]).
  by rewrite Hok.
Qed.

Lemma scaffold_one_cases p w : step_case h p w (scaffold_one h p w).
Proof.
  destruct (disk w !! filepath h p) as [n|] eqn:Hd.
  - rewrite scaffold_one_skip by (rewrite Hd; eauto).
    apply step_skip. rewrite Hd; eauto.
  - destruct (write_ok h (disk w) (filepath h p) (generateProblemTemplate p))
      eqn:Hok.
    + rewrite scaffold_one_create by done. by apply step_create.
    + rewrite scaffold_one_throw by done. by apply step_throw.
Qed.

(** ** The loop *)

Lemma forEach_cons p ps w :
  forEach (scaffold_one h) (p :: ps) w
  = match scaffold_one h p w with
    | Ok _ w' => forEach (scaffold_one h) ps w'
    | Throw e w' => Throw e w'
    end.
Proof. reflexivity. Qed.

Lemma forEach_app {A} (f : A -> M unit) (l1 l2 : list A) w :
  forEach f (l1 ++ l2) w
  = match forEach f l1 w with
    | Ok _ w' => forEach f l2 w'
    | Throw e w' => Throw e w'
    end.
Proof.
  revert w. induction l1 as [|x l1 IH]; intros w; [reflexivity|].
  cbn [app forEach]. unfold bind. destruct (f x w) as [[] w'|e w']; [|done].
  apply IH.
Qed.

Lemma scaffold_unfold ps w :
  scaffold h ps w
  = match forEach (scaffold_one h) ps w with
    | Ok _ w' => Ok tt (with_line w' summary_line)
    | Throw e w' => Throw e w'
    end.
Proof. reflexivity. Qed.

(** Whatever is on the disk stays as it is, in a run that completes and in
    a run that throws. *)
Lemma forEach_frame ps w path n :
  disk w !! path = Some n ->
  disk (world_of (forEach (scaffold_one h) ps w)) !! path = Some n.
Proof.
  revert w. induction ps as [|p ps IH]; intros w Hn; [done|].
  rewrite forEach_cons.
  destruct (scaffold_one_cases p w) as [Hex|Hno Hok|Hno Hok]; [..|done].
  - by apply IH.
  - apply IH. cbn [disk with_file with_line].
    rewrite lookup_insert_ne; [done|]. intros <-. congruence.
Qed.

(** A path that no descriptor targets stays as it is too. *)
Lemma forEach_untargeted ps w path :
  (forall p, p ∈ ps -> filepath h p <> path) ->
  disk (world_of (forEach (scaffold_one h) ps w)) !! path = disk w !! path.
Proof.
  revert w. induction ps as [|p ps IH]; intros w Hps; [done|].
  rewrite forEach_cons.
  assert (forall q, q ∈ ps -> filepath h q <> path) as Hps'
    by (intros q Hq; apply Hps; by right).
  destruct (scaffold_one_cases p w) as [Hex|Hno Hok|Hno Hok]; [..|done].
  - by rewrite IH.
  - rewrite IH by done. cbn [disk with_file with_line].
    apply lookup_insert_ne, Hps. by left.
Qed.

(** A run that completes is the run of the reference. *)
Lemma forEach_ok_report ps w w' :
  forEach (scaffold_one h) ps w = Ok tt w' ->
  disk w' = disk_after h (disk w) ps
  /\ stdout w' = stdout w ++ (outcome_line <$> report h (disk w) ps).
Proof.
  revert w. induction ps as [|p ps IH]; intros w.
  - intros [= <-]. by rewrite app_nil_r.
  - rewrite forEach_cons. cbn [disk_after report].
    destruct (scaffold_one_cases p w) as [Hex|Hno Hok|Hno Hok]; [..|done].
    + intros [-> ->]%IH. rewrite bool_decide_eq_true_2 by done.
      cbn [disk stdout with_line fmap list_fmap outcome_line].
      by rewrite <- app_assoc.
    + intros [-> ->]%IH.
      rewrite bool_decide_eq_false_2 by (rewrite Hno; by intros [? ?]).
      cbn [disk stdout with_line with_file fmap list_fmap outcome_line].
      by rewrite <- app_assoc.
Qed.

Lemma printed_app w w' (lines : list string) :
  stdout w' = stdout w ++ lines -> printed w w' = lines.
Proof. unfold printed. intros ->. by rewrite drop_app_length. Qed.

Lemma scaffold_ok_report ps w w' :
  scaffold h ps w = Ok tt w' ->
  disk w' = disk_after h (disk w) ps
  /\ printed w w' = (outcome_line <$> report h (disk w) ps) ++ [summary_line].
Proof.
  rewrite scaffold_unfold.
  destruct (forEach (scaffold_one h) ps w) as [[] w1|e w1] eqn:Hrun; [|done].
  intros [= <-]. apply forEach_ok_report in Hrun as [Hd Hs].
  split; [done|]. apply printed_app. cbn [stdout with_line]. by rewrite Hs, <- app_assoc.
Qed.

(** ** The reference run *)

Lemma report_length d ps : length (report h d ps) = length ps.
Proof.
  revert d. induction ps as [|p ps IH]; intros d; [done|].
  cbn [report]. case_bool_decide; cbn [length]; by rewrite IH.
Qed.

Lemma report_app d ps1 ps2 :
  report h d (ps1 ++ ps2)
  = report h d ps1 ++ report h (disk_after h d ps1) ps2.
Proof.
  revert d. induction ps1 as [|p ps1 IH]; intros d; [done|].
  cbn [app report disk_after]. case_bool_decide; by rewrite IH.
Qed.

Lemma disk_after_app d ps1 ps2 :
  disk_after h d (ps1 ++ ps2) = disk_after h (disk_after h d ps1) ps2.
Proof.
  revert d. induction ps1 as [|p ps1 IH]; intros d; [done|].
  cbn [app disk_after]. case_bool_decide; by rewrite IH.
Qed.

Lemma disk_after_frame d ps path n :
  d !! path = Some n -> disk_after h d ps !! path = Some n.
Proof.
  revert d. induction ps as [|p ps IH]; intros d Hn; [done|].
  cbn [disk_after]. case_bool_decide as Hex; apply IH; [done|].
  rewrite lookup_insert_ne; [done|]. intros <-. apply Hex. by rewrite Hn.
Qed.

Lemma disk_after_untargeted d ps path :
  (forall p, p ∈ ps -> filepath h p <> path) ->
  disk_after h d ps !! path = d !! path.
Proof.
  revert d. induction ps as [|p ps IH]; intros d Hps; [done|].
  assert (forall q, q ∈ ps -> filepath h q <> path) as Hps'
    by (intros q Hq; apply Hps; by right).
  cbn [disk_after]. case_bool_decide; rewrite IH by done; [done|].
  apply lookup_insert_ne, Hps. by left.
Qed.

(** After the reference run every target exists. *)
Lemma disk_after_targets d ps p :
  p ∈ ps -> is_Some (disk_after h d ps !! filepath h p).
Proof.
  revert d. induction ps as [|q ps IH]; intros d Hin; [by inversion Hin|].
  cbn [disk_after]. apply elem_of_cons in Hin as [->|Hin].
  - case_bool_decide as Hex.
    + destruct Hex as [n Hn]. exists n. by apply disk_after_frame.
    + eexists. apply disk_after_frame. apply lookup_insert_eq.
  - case_bool_decide; by apply IH.
Qed.

(** What changed in the reference run is the target of a descriptor, and
    was absent. *)
Lemma disk_after_changed d ps path :
  disk_after h d ps !! path <> d !! path ->
  d !! path = None /\ exists p, p ∈ ps /\ filepath h p = path.
Proof.
  revert d. induction ps as [|q ps IH]; intros d Hne; [done|].
  cbn [disk_after] in Hne. case_bool_decide as Hex.
  - destruct (IH _ Hne) as (Hd & p & Hp & Hpath).
    split; [done|]. exists p. split; [by right|done].
  - destruct (decide (filepath h q = path)) as [<-|Hqp].
    + split; [|exists q; split; [by left|done]].
      destruct (d !! filepath h q) eqn:E; [|done]. destruct Hex. eauto.
    + rewrite <- (lookup_insert_ne d (filepath h q) path
                   (File (generateProblemTemplate q))) in Hne |- * by done.
      destruct (IH _ Hne) as (Hd & p & Hp & Hpath).
      split; [done|]. exists p. split; [by right|done].
Qed.

(** A descriptor whose target exists is reported as skipped. *)
Lemma report_lookup_existing d ps i p :
  is_Some (d !! filepath h p) -> ps !! i = Some p ->
  report h d ps !! i = Some (skipped (filepath h p)).
Proof.
  revert d i. induction ps as [|q ps IH]; intros d i Hex Hi; [done|].
  cbn [report]. destruct i as [|i]; cbn in Hi.
  - injection Hi as ->. by rewrite bool_decide_eq_true_2.
  - case_bool_decide as Hq; cbn; apply IH; try done.
    destruct Hex as [n Hn].
    destruct (decide (filepath h q = filepath h p)) as [Heq|Hne].
    + rewrite Heq, lookup_insert_eq. eauto.
    + rewrite lookup_insert_ne by done. eauto.
Qed.

(** When every target exists, nothing is written and everything is
    reported as skipped. *)
Lemma report_all_exist d ps :
  (forall p, p ∈ ps -> is_Some (d !! filepath h p)) ->
  report h d ps = (fun p => skipped (filepath h p)) <$> ps
  /\ disk_after h d ps = d.
Proof.
  induction ps as [|q ps IH]; intros Hall; [done|].
  cbn [report disk_after]. rewrite bool_decide_eq_true_2 by (apply Hall; by left).
  destruct IH as [-> ->]; [|done]. intros p Hp. apply Hall. by right.
Qed.

Lemma forEach_all_exist ps w :
  (forall p, p ∈ ps -> is_Some (disk w !! filepath h p)) ->
  forEach (scaffold_one h) ps w
  = Ok tt {| disk := disk w;
             stdout := stdout w ++ ((fun p => skipped_line (filepath h p)) <$> ps) |}.
Proof.
  revert w. induction ps as [|q ps IH]; intros w Hall.
  - cbn. rewrite app_nil_r. by destruct w.
  - rewrite forEach_cons, scaffold_one_skip by (apply Hall; by left).
    rewrite IH by (intros p Hp; apply Hall; by right).
    cbn [disk stdout with_line fmap list_fmap]. by rewrite <- app_assoc.
Qed.

Lemma report_cases d ps :
  Forall2 (fun p o => o = created (filepath h p) \/ o = skipped (filepath h p))
    ps (report h d ps).
Proof.
  revert d. induction ps as [|q ps IH]; intros d; [constructor|].
  cbn [report]. case_bool_decide; constructor; auto.
Qed.

End Runs.

Section RunsMore.

Context (h : Host).
Implicit Types (p : Problem) (ps : list Problem) (w : World)
  (d : gmap string node).

Lemma disk_after_lookup d ps path :
  disk_after h d ps !! path
  = match d !! path with
    | Some n => Some n
    | None => (fun p => File (generateProblemTemplate p))
                <$> first_target h path ps
    end.
Proof.
  revert d. induction ps as [|p ps IH]; intros d.
  - cbn. by destruct (d !! path).
  - cbn [disk_after first_target]. case_bool_decide as Hex; rewrite IH.
    + destruct (d !! path) eqn:Hd; [done|].
      case_decide as Hp; [|done]. subst path. rewrite Hd in Hex.
      by destruct Hex.
    + case_decide as Hp.
      * subst path. rewrite lookup_insert_eq.
        destruct (d !! filepath h p) eqn:Hd; [|done].
        destruct Hex. eauto.
      * by rewrite lookup_insert_ne.
Qed.

Lemma first_target_Some path ps p :
  first_target h path ps = Some p -> p ∈ ps /\ filepath h p = path.
Proof.
  induction ps as [|q ps IH]; [done|]. cbn [first_target].
  case_decide as Hq.
  - intros [= ->]. split; [by left|done].
  - intros [Hp Hpath]%IH. split; [by right|done].
Qed.

Lemma first_target_None path ps :
  first_target h path ps = None ->
  forall p, p ∈ ps -> filepath h p <> path.
Proof.
  induction ps as [|q ps IH]; [by intros _ p Hp; inversion Hp|].
  cbn [first_target]. case_decide as Hq; [done|].
  intros Hn p [->|Hp]%elem_of_cons; [done|by apply IH].
Qed.

Lemma first_target_unique path ps p :
  NoDup (filepath h <$> ps) -> p ∈ ps -> filepath h p = path ->
  first_target h path ps = Some p.
Proof.
  induction ps as [|q ps IH]; [by intros _ Hp; inversion Hp|].
  rewrite fmap_cons. intros [Hq Hnd]%NoDup_cons Hp Hpath.
  cbn [first_target]. apply elem_of_cons in Hp as [->|Hp].
  - by rewrite decide_True.
  - rewrite decide_False; [by apply IH|].
    intros Heq. apply Hq. rewrite Heq, <- Hpath.
    by apply list_elem_of_fmap_2.
Qed.

Lemma first_target_perm path ps ps' :
  ps ≡ₚ ps' -> NoDup (filepath h <$> ps) ->
  first_target h path ps = first_target h path ps'.
Proof.
  intros Hperm Hnd.
  assert (NoDup (filepath h <$> ps')) as Hnd' by by rewrite <- Hperm.
  destruct (first_target h path ps) as [p|] eqn:E.
  - apply first_target_Some in E as [Hp Hpath]. symmetry.
    apply first_target_unique; [done| by rewrite <- Hperm |done].
  - destruct (first_target h path ps') as [p|] eqn:E'; [|done].
    apply first_target_Some in E' as [Hp Hpath].
    rewrite <- Hperm in Hp. by destruct (first_target_None _ _ E p Hp).
Qed.

Lemma disk_after_perm d ps ps' :
  ps ≡ₚ ps' -> NoDup (filepath h <$> ps) ->
  disk_after h d ps = disk_after h d ps'.
Proof.
  intros Hperm Hnd. apply map_eq. intros path.
  by rewrite !disk_after_lookup, (first_target_perm path ps ps').
Qed.

Lemma report_counts d ps :
  length (filter (fun o => is_created o = true) (report h d ps))
  + length (filter (fun o => is_created o = false) (report h d ps))
  = length ps
  /\ size (disk_after h d ps)
     = size d + length (filter (fun o => is_created o = true) (report h d ps)).
Proof.
  revert d. induction ps as [|p ps IH]; intros d; [cbn; lia|].
  cbn [report disk_after]. case_bool_decide as Hex.
  - destruct (IH d) as [IH1 IH2].
    rewrite filter_cons_False, filter_cons_True by done.
    cbn [length]. lia.
  - destruct (IH (<[filepath h p := File (generateProblemTemplate p)]> d))
      as [IH1 IH2].
    rewrite filter_cons_True, filter_cons_False by done.
    rewrite map_size_insert_None in IH2.
    + cbn [length]. lia.
    + destruct (d !! filepath h p) eqn:E; [|done]. destruct Hex. eauto.
Qed.

Lemma disk_after_again d ps1 ps2 :
  disk_after h (disk_after h d ps1) (ps1 ++ ps2)
  = disk_after h d (ps1 ++ ps2).
Proof.
  rewrite !disk_after_app. f_equal.
  apply report_all_exist. intros p Hp. by apply disk_after_targets.
Qed.

End RunsMore.

(** ** POSIX paths *)

Section PosixLayout.

Import Posix.

Lemma split_cons (c : ascii) (r : string) :
  split (String c r)
  = if (c =? "/")%char then "" :: split r
    else match split r with
         | seg :: rest => String c seg :: rest
         | [] => [String c ""]
         end.
Proof.
  cbn [split]. destruct (split r) as [|seg rest] eqn:E; [|done].
  by destruct r; cbn in E; repeat case_match.
Qed.

Lemma split_no_slash (s : string) : all_chars not_slash s = true -> split s = [s].
Proof.
  induction s as [|c r IH]; [done|]. cbn [all_chars].
  intros [Hc Hr]%andb_prop. rewrite split_cons, (IH Hr).
  apply Bool.negb_true_iff in Hc. by rewrite Hc.
Qed.

Lemma split_app_slash (a b : string) :
  split (a +:+ String "/" b) = split a ++ split b.
Proof.
  induction a as [|c a IH]; [by rewrite append_empty_l, split_cons|].
  rewrite append_cons, !split_cons, IH.
  destruct (c =? "/")%char; [done|].
  destruct (split a) as [|seg rest] eqn:E; [|done].
  by destruct a; cbn in E; repeat case_match.
Qed.

Lemma join_cons_cons (sep x y : string) (l : list string) :
  join sep (x :: y :: l) = x +:+ sep +:+ join sep (y :: l).
Proof. reflexivity. Qed.

Lemma join_app (sep : string) (l1 l2 : list string) :
  l1 <> [] -> l2 <> [] ->
  join sep (l1 ++ l2) = join sep l1 +:+ sep +:+ join sep l2.
Proof.
  intros H1 H2. induction l1 as [|x l1 IH]; [done|].
  destruct l1 as [|y l1].
  - destruct l2 as [|z l2]; [done|]. reflexivity.
  - cbn [app] in *. rewrite !join_cons_cons, IH by done.
    by rewrite !append_assoc.
Qed.

Lemma split_join (segs : list string) :
  Forall (fun seg => all_chars not_slash seg = true) segs -> segs <> [] ->
  split (join "/" segs) = segs.
Proof.
  induction 1 as [|x l Hx Hl IH]; [done|]. intros _.
  destruct l as [|y l]; [by apply split_no_slash|].
  rewrite join_cons_cons. change ("/" +:+ ?s) with (String "/" s).
  rewrite split_app_slash, split_no_slash, IH by done. reflexivity.
Qed.

Lemma plain_no_slash (seg : string) :
  plain_segment seg = true -> all_chars not_slash seg = true.
Proof. unfold plain_segment. by intros [[[? ?]%andb_prop ?]%andb_prop ?]%andb_prop. Qed.

Lemma push_plain (b : bool) (stack : list string) (seg : string) :
  plain_segment seg = true -> push_segment b stack seg = seg :: stack.
Proof.
  unfold plain_segment, push_segment.
  intros [[[_ H1]%andb_prop H2]%andb_prop H3]%andb_prop.
  apply Bool.negb_true_iff in H1, H2, H3. by rewrite H1, H2, H3.
Qed.

Lemma push_dotdot (b : bool) (top : string) (rest : list string) :
  plain_segment top = true -> push_segment b (top :: rest) ".." = rest.
Proof.
  unfold plain_segment, push_segment.
  intros [_ H]%andb_prop. apply Bool.negb_true_iff in H.
  change (String.eqb ".." "") with false.
  change (String.eqb ".." ".") with false.
  change (String.eqb ".." "..") with true.
  cbn [orb]. by rewrite H.
Qed.

Lemma foldl_push_plain (b : bool) (stack segs : list string) :
  Forall (fun seg => plain_segment seg = true) segs ->
  foldl (push_segment b) stack segs = rev segs ++ stack.
Proof.
  intros H. revert stack. induction H as [|x l Hx Hl IH]; intros stack; [done|].
  cbn [foldl rev]. rewrite push_plain, IH by done. by rewrite <- app_assoc.
Qed.


Lemma all_chars_app (P : ascii -> bool) (a b : string) :
  all_chars P (a +:+ b) = all_chars P a && all_chars P b.
Proof.
  induction a as [|c a IH]; [done|].
  rewrite append_cons. cbn [all_chars]. by rewrite IH, andb_assoc.
Qed.

Lemma all_chars_impl (P Q : ascii -> bool) (s : string) :
  (forall c, P c = true -> Q c = true) ->
  all_chars P s = true -> all_chars Q s = true.
Proof.
  intros HPQ. induction s as [|c r IH]; [done|]. cbn [all_chars].
  intros [Hc Hr]%andb_prop. by rewrite (HPQ c Hc), IH.
Qed.

Lemma ends_with_slash_cons (c : ascii) (r : string) :
  r <> "" -> ends_with_slash (String c r) = ends_with_slash r.
Proof. by destruct r. Qed.

Lemma ends_with_slash_app (a b : string) :
  b <> "" -> ends_with_slash (a +:+ b) = ends_with_slash b.
Proof.
  intros Hb. induction a as [|c a IH]; [done|].
  rewrite append_cons, ends_with_slash_cons; [done|].
  destruct a; [done|by rewrite append_cons].
Qed.

Lemma ends_with_slash_no_slash (s : string) :
  all_chars not_slash s = true -> ends_with_slash s = false.
Proof.
  induction s as [|c r IH]; [done|]. cbn [all_chars].
  intros [Hc Hr]%andb_prop. apply Bool.negb_true_iff in Hc.
  destruct r; [by cbn; rewrite Hc|]. rewrite ends_with_slash_cons by done.
  by apply IH.
Qed.

Lemma plain_nonempty (seg : string) : plain_segment seg = true -> seg <> "".
Proof.
  unfold plain_segment. intros [[[_ H]%andb_prop _]%andb_prop _]%andb_prop ->.
  done.
Qed.

Lemma join_cons_nonempty (sep x : string) (l : list string) :
  x <> "" -> join sep (x :: l) <> "".
Proof.
  intros Hx. destruct x as [|c x]; [done|].
  destruct l; [done|]. by rewrite join_cons_cons, append_cons.
Qed.

Lemma ends_with_slash_join (l : list string) (x : string) :
  plain_segment x = true -> ends_with_slash (join "/" (l ++ [x])) = false.
Proof.
  intros Hx. pose proof (plain_nonempty x Hx) as Hne.
  destruct l as [|y l]; [by apply ends_with_slash_no_slash, plain_no_slash|].
  rewrite join_app by done.
  change (join "/" [x]) with x. change ("/" +:+ x) with (String "/" x).
  rewrite ends_with_slash_app, ends_with_slash_cons by done.
  by apply ends_with_slash_no_slash, plain_no_slash.
Qed.

Lemma join_snoc_nonempty (l : list string) (x : string) :
  x <> "" -> join "/" (l ++ [x]) <> "".
Proof.
  intros Hx. destruct l as [|y l]; [done|].
  rewrite join_app by done. change (join "/" [x]) with x.
  destruct (join "/" (y :: l)); [|by rewrite append_cons].
  rewrite append_empty_l. by change ("/" +:+ x) with (String "/" x).
Qed.

(** An absolute path whose segments hold no slash normalises to the
    segments that the stack keeps. *)
Lemma normalize_absolute (raw : list string) :
  Forall (fun seg => all_chars not_slash seg = true) raw -> raw <> [] ->
  ends_with_slash (join "/" raw) = false ->
  join "/" raw <> "" ->
  normalize ("/" +:+ join "/" raw)
  = "/" +:+ join "/" (rev (foldl (push_segment false) [] raw)).
Proof.
  intros Hraw Hne Hend Hjoin. unfold normalize, normalizeString.
  change ("/" +:+ ?s) with (String "/" s).
  rewrite split_cons, split_join by done.
  rewrite ends_with_slash_cons, Hend by done.
  cbn [String.eqb starts_with_slash Ascii.eqb Bool.eqb negb foldl].
  change (push_segment false [] "") with (@nil string).
  destruct (String.eqb _ "") eqn:E.
  - apply String.eqb_eq in E. by rewrite E.
  - by rewrite append_empty_r.
Qed.

Lemma join_path_nonempty (args : list string) :
  Forall (fun arg => arg <> "") args -> args <> [] ->
  join_path args = normalize (join "/" args).
Proof.
  intros Hall Hne. unfold join_path.
  replace (filter (fun arg => arg <> "") args) with args; [by destruct args|].
  induction Hall as [|x l Hx Hl IH]; [done|].
  rewrite filter_cons_True by done. destruct l as [|y l]; [done|].
  by rewrite <- IH.
Qed.

Lemma Forall_plain_no_slash (segs : list string) :
  Forall (fun seg => plain_segment seg = true) segs ->
  Forall (fun seg => all_chars not_slash seg = true) segs.
Proof. intros H. eapply Forall_impl; [exact H|]. apply plain_no_slash. Qed.

Lemma Forall_plain_nonempty (segs : list string) :
  Forall (fun seg => plain_segment seg = true) segs ->
  Forall (fun seg => seg <> "") segs.
Proof. intros H. eapply Forall_impl; [exact H|]. apply plain_nonempty. Qed.

(** Plain segments joined to an absolute path of plain segments extend
    it. *)
Lemma join_path_down (segs rest : list string) :
  Forall (fun seg => plain_segment seg = true) segs -> segs <> [] ->
  Forall (fun seg => plain_segment seg = true) rest -> rest <> [] ->
  join_path (("/" +:+ join "/" segs) :: rest)
  = "/" +:+ join "/" (segs ++ rest).
Proof.
  intros Hsegs Hne Hrest Hne'.
  assert (Forall (fun seg => plain_segment seg = true) (segs ++ rest))
    as Hall by (apply Forall_app; by split).
  rewrite join_path_nonempty; cycle 1.
  { constructor; [done|]. by apply Forall_plain_nonempty. }
  { done. }
  replace (join "/" (("/" +:+ join "/" segs) :: rest))
    with ("/" +:+ join "/" (segs ++ rest)).
  2:{ rewrite join_app by done. destruct rest as [|x rest]; [done|].
      by rewrite (join_cons_cons "/" ("/" +:+ _)), append_assoc. }
  destruct (exists_last Hne') as (front & x & ->).
  apply Forall_app in Hrest as [_ Hx]. apply Forall_inv in Hx.
  rewrite normalize_absolute; cycle 1.
  { by apply Forall_plain_no_slash. }
  { by destruct segs. }
  { rewrite app_assoc. by apply ends_with_slash_join. }
  { rewrite app_assoc. by apply join_snoc_nonempty, plain_nonempty. }
  by rewrite foldl_push_plain, app_nil_r, rev_involutive.
Qed.

(** A [..] after the absolute path of the script directory takes its last
    segment away. *)
Lemma join_path_up (init : list string) (last : string) (rest : list string) :
  Forall (fun seg => plain_segment seg = true) (init ++ [last]) ->
  Forall (fun seg => plain_segment seg = true) rest -> rest <> [] ->
  join_path (("/" +:+ join "/" (init ++ [last])) :: ".." :: rest)
  = "/" +:+ join "/" (init ++ rest).
Proof.
  intros Hsegs Hrest Hne.
  pose (raw := (init ++ [last]) ++ ".." :: rest).
  rewrite join_path_nonempty; cycle 1.
  { constructor; [done|]. constructor; [done|].
    by apply Forall_plain_nonempty. }
  { done. }
  replace (join "/" (("/" +:+ join "/" (init ++ [last])) :: ".." :: rest))
    with ("/" +:+ join "/" raw).
  2:{ subst raw. rewrite join_app by (done || by destruct init).
      by rewrite (join_cons_cons "/" ("/" +:+ _)), append_assoc. }
  destruct (exists_last Hne) as (front & x & ->).
  pose proof Hrest as Hrest'.
  apply Forall_app in Hrest' as [_ Hx]. apply Forall_inv in Hx.
  assert (raw = (init ++ [last] ++ ".." :: front) ++ [x]) as Hraw_eq
    by (subst raw; by rewrite <- !app_assoc).
  rewrite normalize_absolute; cycle 1.
  { subst raw. apply Forall_app; split; [by apply Forall_plain_no_slash|].
    constructor; [done|]. by apply Forall_plain_no_slash. }
  { subst raw. by destruct init. }
  { rewrite Hraw_eq. by apply ends_with_slash_join. }
  { rewrite Hraw_eq. by apply join_snoc_nonempty, plain_nonempty. }
  subst raw. rewrite foldl_app.
  rewrite (foldl_push_plain _ [] (init ++ [last])), app_nil_r by done.
  apply Forall_app in Hsegs as [Hinit Hlast]. apply Forall_inv in Hlast.
  rewrite rev_app_distr. cbn [rev app foldl].
  rewrite push_dotdot, foldl_push_plain by done.
  by rewrite rev_app_distr, !rev_involutive.
Qed.

(** The directory of a category. *)
Lemma docsPath_posix (h : Host) (init : list string) (last : string)
    (p : Problem) :
  path_join h = join_path ->
  __dirname h = "/" +:+ join "/" (init ++ [last]) ->
  Forall (fun seg => plain_segment seg = true) (init ++ [last]) ->
  plain_segment (folder p) = true ->
  docsPath h p
  = "/" +:+ join "/" (init ++ ["docs"; "leetcode-75"; folder p]).
Proof.
  intros Hjoin Hdir Hsegs Hfolder. unfold docsPath. rewrite Hjoin, Hdir.
  apply join_path_up; [done| |done]. by repeat constructor.
Qed.

Lemma slug_chars_collapse_from (b : bool) (s : string) :
  all_chars slug_or_hyphen (collapse_from b s) = true.
Proof.
  revert b. induction s as [|c r IH]; intros b; [done|].
  cbn [collapse_from]. unfold Char.not_slug_char.
  destruct (Char.is_slug_char c) eqn:Hc; cbn [negb].
  - cbn [all_chars]. unfold slug_or_hyphen at 1. by rewrite Hc, IH.
  - destruct b; [apply IH|]. cbn [all_chars]. by rewrite IH.
Qed.

Lemma all_chars_strip_leading (P : ascii -> bool) (s : string) :
  all_chars P s = true -> all_chars P (SlugSpec.strip_leading s) = true.
Proof.
  induction s as [|c r IH]; [done|]. cbn [SlugSpec.strip_leading].
  destruct (Char.is_hyphen c); [|done]. cbn [all_chars].
  intros [_ Hr]%andb_prop. by apply IH.
Qed.

Lemma all_chars_strip_trailing (P : ascii -> bool) (s : string) :
  all_chars P s = true -> all_chars P (SlugSpec.strip_trailing s) = true.
Proof.
  induction s as [|c r IH]; [done|]. cbn [SlugSpec.strip_trailing all_chars].
  intros [Hc Hr]%andb_prop. specialize (IH Hr).
  destruct (SlugSpec.strip_trailing r).
  - destruct (Char.is_hyphen c); [done|]. cbn [all_chars]. by rewrite Hc.
  - cbn [all_chars] in *. by rewrite Hc, IH.
Qed.

(** The slug is made of the characters of [[a-z0-9]] and hyphens. *)
Lemma slugify_chars (title : string) :
  all_chars slug_or_hyphen (slugify title) = true.
Proof.
  unfold slugify. rewrite replace_run_collapse_from.
  rewrite replace_edge_strip by apply collapse_from_sparse.
  apply all_chars_strip_trailing, all_chars_strip_leading.
  apply slug_chars_collapse_from.
Qed.

Lemma slug_or_hyphen_not_slash (c : ascii) :
  slug_or_hyphen c = true -> negb (c =? "/")%char = true.
Proof. destruct c as [[] [] [] [] [] [] [] []]; by vm_compute. Qed.

Lemma filename_plain (p : Problem) : plain_segment (filename p) = true.
Proof.
  unfold filename, plain_segment.
  assert (all_chars not_slash (slugify (title p)) = true) as Hslug.
  { eapply all_chars_impl; [apply slug_or_hyphen_not_slash|].
    apply slugify_chars. }
  rewrite all_chars_app, Hslug.
  destruct (slugify (title p)) as [|c [|c' [|c'' s]]];
    rewrite ?append_cons, ?append_empty_l; cbn [String.eqb];
    repeat match goal with
           | |- context [if ?b then _ else _] => destruct b
           end;
    reflexivity.
Qed.

(** On a POSIX host whose script directory is the absolute path of the
    segments [init ++ [last]], the note of a descriptor with a plain
    folder name goes to [docs/leetcode-75/<folder>/<slug>.mdx] under the
    parent of the script directory. *)
Lemma filepath_posix (h : Host) (init : list string) (last : string)
    (p : Problem) :
  path_join h = join_path ->
  __dirname h = "/" +:+ join "/" (init ++ [last]) ->
  Forall (fun seg => plain_segment seg = true) (init ++ [last]) ->
  plain_segment (folder p) = true ->
  filepath h p
  = "/" +:+ join "/" (init ++ ["docs"; "leetcode-75"; folder p;
                               slugify (title p) +:+ ".mdx"]).
Proof.
  intros Hjoin Hdir Hsegs Hfolder. unfold filepath.
  rewrite (docsPath_posix h init last p) by done. rewrite Hjoin.
  pose proof (filename_plain p) as Hname.
  apply Forall_app in Hsegs as [Hinit _].
  rewrite join_path_down; try done.
  - by rewrite <- app_assoc.
  - apply Forall_app; split; [done|]. by repeat constructor.
  - by destruct init.
  - by constructor.
Qed.

End PosixLayout.

(** *** Joining a joined path *)

Section PosixNest.
Import Posix.

(** No segment of a path holds a slash. *)
Lemma split_segments (s : string) :
  Forall (fun seg => all_chars not_slash seg = true) (split s).
Proof.
  induction s as [|c r IH]; [by repeat constructor|].
  rewrite split_cons. destruct (c =? "/")%char eqn:Hc.
  - by constructor.
  - destruct (split r) as [|seg rest]; [repeat constructor; cbn|].
    + unfold not_slash. by rewrite Hc.
    + apply Forall_cons in IH as [Hs Hr]. constructor; [|done].
      cbn [all_chars]. unfold not_slash at 1. by rewrite Hc, Hs.
Qed.

Lemma stack_ok_nil (b : bool) : stack_ok b [].
Proof. exists [], 0. by repeat split. Qed.

(** Pushing a segment keeps the shape of the stack. *)
Lemma push_ok (b : bool) (stack : list string) (seg : string) :
  all_chars not_slash seg = true ->
  stack_ok b stack -> stack_ok b (push_segment b stack seg).
Proof.
  intros Hseg (plains & k & -> & Hplains & Hk). unfold push_segment.
  destruct (String.eqb seg "") eqn:E1; [by exists plains, k|].
  destruct (String.eqb seg ".") eqn:E2; [by exists plains, k|].
  cbn [orb].
  destruct (String.eqb seg "..") eqn:E3.
  - apply String.eqb_eq in E3 as ->.
    destruct plains as [|top plains].
    + cbn [app]. destruct k as [|k]; cbn [replicate].
      * destruct b; [|apply stack_ok_nil]. by exists [], 1.
      * rewrite (Hk ltac:(done)). change (String.eqb ".." "..") with true.
        cbv iota. by exists [], (S (S k)).
    + apply Forall_cons in Hplains as [Htop Hplains]. cbn [app].
      pose proof Htop as Htop'. unfold plain_segment in Htop'.
      apply andb_prop in Htop' as [_ Hdd]. apply Bool.negb_true_iff in Hdd.
      rewrite Hdd. by exists plains, k.
  - exists (seg :: plains), k. split; [done|]. split; [|done].
    constructor; [|done]. unfold plain_segment. by rewrite Hseg, E1, E2, E3.
Qed.

Lemma foldl_push_ok (b : bool) (segs stack : list string) :
  Forall (fun seg => all_chars not_slash seg = true) segs ->
  stack_ok b stack -> stack_ok b (foldl (push_segment b) stack segs).
Proof.
  intros H. revert stack. induction H as [|x l Hx Hl IH]; intros stack Hs;
    [done|]. cbn [foldl]. by apply IH, push_ok.
Qed.

Lemma foldl_push_dotdots (j k : nat) :
  foldl (push_segment true) (replicate j "..") (replicate k "..")
  = replicate (k + j) "..".
Proof.
  revert j. induction k as [|k IH]; intros j; [done|].
  cbn [replicate foldl].
  replace (push_segment true (replicate j "..") "..")
    with (replicate (S j) "..") by by destruct j.
  rewrite IH. f_equal. lia.
Qed.

Lemma stack_replay (b : bool) (stack : list string) :
  stack_ok b stack -> foldl (push_segment b) [] (rev stack) = stack.
Proof.
  intros (plains & k & -> & Hplains & Hk).
  rewrite rev_app_distr, foldl_app.
  assert (rev (replicate k "..") = replicate k "..") as ->.
  { clear. induction k as [|k IH]; [done|]. cbn [replicate rev]. rewrite IH.
    clear. induction k; [done|]. cbn. by f_equal. }
  assert (foldl (push_segment b) [] (replicate k "..") = replicate k "..")
    as ->.
  { destruct k; [done|]. rewrite (Hk ltac:(done)).
    rewrite (foldl_push_dotdots 0). f_equal. lia. }
  rewrite foldl_push_plain by by apply Forall_rev.
  by rewrite rev_involutive.
Qed.

Lemma stack_ok_segments (b : bool) (stack : list string) :
  stack_ok b stack ->
  Forall (fun seg => all_chars not_slash seg = true /\ seg <> "") stack.
Proof.
  intros (plains & k & -> & Hplains & _). apply Forall_app. split.
  - eapply Forall_impl; [exact Hplains|]. intros seg Hs.
    split; [by apply plain_no_slash|by apply plain_nonempty].
  - clear. induction k; [constructor|]. cbn. by constructor.
Qed.


Lemma push_empty (b : bool) (stack : list string) :
  push_segment b stack "" = stack.
Proof. reflexivity. Qed.

Lemma starts_with_slash_app (a b : string) :
  a <> "" -> starts_with_slash (a +:+ b) = starts_with_slash a.
Proof. destruct a; [done|]. by rewrite append_cons. Qed.

Lemma join_stack_nonempty (b : bool) (stack : list string) :
  stack_ok b stack -> stack <> [] ->
  exists c r, join "/" (rev stack) = String c r /\ not_slash c = true.
Proof.
  intros Hok Hne. apply stack_ok_segments in Hok.
  apply Forall_rev in Hok.
  destruct (rev stack) as [|x l] eqn:E.
  { destruct Hne. by rewrite <- (rev_involutive stack), E. }
  apply Forall_cons in Hok as [[Hx Hxne] _].
  destruct x as [|c x]; [done|]. cbn [all_chars] in Hx.
  apply andb_prop in Hx as [Hc _]. exists c.
  destruct l; [by exists x|]. rewrite join_cons_cons, append_cons. eauto.
Qed.

(** What [normalize] gives, from the stack of the kept segments. *)
Lemma normalize_stack (s : string) :
  s <> "" ->
  let stack := foldl (push_segment (negb (starts_with_slash s))) [] (split s) in
  normalize s
  = match stack with
    | [] => if starts_with_slash s then "/"
            else if ends_with_slash s then "./" else "."
    | _ => (if starts_with_slash s then "/" else "") +:+
           join "/" (rev stack) +:+
           (if ends_with_slash s then "/" else "")
    end.
Proof.
  intros Hs stack. unfold normalize, normalizeString. fold stack.
  destruct (String.eqb s "") eqn:E; [by apply String.eqb_eq in E|].
  assert (stack_ok (negb (starts_with_slash s)) stack) as Hok
    by (apply foldl_push_ok; [apply split_segments|apply stack_ok_nil]).
  destruct stack as [|x l] eqn:Est; [done|].
  destruct (join_stack_nonempty _ _ Hok ltac:(done)) as (c & r & -> & _).
  done.
Qed.

(** Normalising again finds the same stack. *)
Lemma normalize_resplit (s : string) :
  s <> "" ->
  normalize s <> ""
  /\ starts_with_slash (normalize s) = starts_with_slash s
  /\ foldl (push_segment (negb (starts_with_slash s))) [] (split (normalize s))
     = foldl (push_segment (negb (starts_with_slash s))) [] (split s).
Proof.
  intros Hs. rewrite (normalize_stack s Hs).
  set (b := negb (starts_with_slash s)).
  assert (stack_ok b (foldl (push_segment b) [] (split s))) as Hok
    by (apply foldl_push_ok; [apply split_segments|apply stack_ok_nil]).
  destruct (foldl (push_segment b) [] (split s)) as [|x l] eqn:Est.
  { subst b. destruct (starts_with_slash s), (ends_with_slash s); done. }
  rewrite <- Est in *.
  set (stack := foldl (push_segment b) [] (split s)) in *.
  assert (stack <> []) as Hne by (rewrite Est; done).
  clearbody stack. clear Est x l.
  destruct (join_stack_nonempty b stack Hok Hne) as (c & r & Hj & Hc).
  assert (split (join "/" (rev stack)) = rev stack) as Hsplit.
  { apply split_join.
    - apply Forall_rev.
      eapply Forall_impl; [exact (stack_ok_segments b stack Hok)|].
      by intros seg [? _].
    - intros E. destruct Hne. by rewrite <- (rev_involutive stack), E. }
  assert (forall post,
            post = "" \/ post = "/" ->
            foldl (push_segment b) [] (split (join "/" (rev stack) +:+ post))
            = stack) as Hfold.
  { intros post [->| ->].
    - by rewrite append_empty_r, Hsplit, stack_replay.
    - change "/" with (String "/" ""). rewrite split_app_slash, Hsplit.
      rewrite foldl_app, stack_replay by done. reflexivity. }
  assert (forall post, join "/" (rev stack) +:+ post <> "") as Hbody
    by (intros post; by rewrite Hj, append_cons).
  assert (forall post,
            starts_with_slash (join "/" (rev stack) +:+ post) = false)
    as Hstart.
  { intros post. rewrite Hj, append_cons. cbn.
    unfold not_slash in Hc. by apply Bool.negb_true_iff in Hc. }
  subst b. destruct (starts_with_slash s) eqn:Habs.
  - change ("/" +:+ ?t) with (String "/" t).
    split; [done|]. split; [done|].
    rewrite split_cons. change ("/" =? "/")%char with true. cbv iota.
    cbn [foldl]. rewrite push_empty.
    apply Hfold. destruct (ends_with_slash s); auto.
  - rewrite append_empty_l.
    split; [apply Hbody|]. split; [apply Hstart|].
    apply Hfold. destruct (ends_with_slash s); auto.
Qed.

(** [path.join] of a joined path and more segments is [path.join] of all
    the segments. *)
Lemma normalize_nest (x y : string) :
  x <> "" -> y <> "" ->
  normalize (normalize x +:+ "/" +:+ y) = normalize (x +:+ "/" +:+ y).
Proof.
  intros Hx Hy. destruct (normalize_resplit x Hx) as (Hn & Habs & Hstack).
  assert (forall a, a <> "" -> a +:+ "/" +:+ y <> "") as Hne
    by (intros [|c a]; [done|by rewrite append_cons]).
  unfold normalize at 1 3. unfold normalizeString.
  destruct (String.eqb (normalize x +:+ "/" +:+ y) "") eqn:E1;
    [apply String.eqb_eq in E1; by apply Hne in E1|].
  destruct (String.eqb (x +:+ "/" +:+ y) "") eqn:E2;
    [apply String.eqb_eq in E2; by apply Hne in E2|].
  rewrite !starts_with_slash_app, Habs by done.
  change ("/" +:+ y) with (String "/" y).
  rewrite !split_app_slash, !foldl_app, Hstack.
  rewrite !(ends_with_slash_app _ (String "/" y)) by done.
  reflexivity.
Qed.

Lemma filter_nonempty_elem (args : list string) :
  (exists x, x ∈ args /\ x <> "") ->
  filter (fun arg => arg <> "") args <> [].
Proof.
  intros (x & Hin & Hx) E.
  assert (x ∈ filter (fun arg => arg <> "") args) as H
    by by apply list_elem_of_filter.
  rewrite E in H. inversion H.
Qed.

Lemma join_nonempty_parts (parts : list string) :
  Forall (fun arg => arg <> "") parts -> parts <> [] -> join "/" parts <> "".
Proof.
  intros H Hne. destruct parts as [|x l]; [done|].
  apply Forall_cons in H as [Hx _]. by apply join_cons_nonempty.
Qed.

Lemma join_path_nest (xs ys : list string) :
  (exists x, x ∈ xs /\ x <> "") ->
  (exists y, y ∈ ys /\ y <> "") ->
  join_path (join_path xs :: ys) = join_path (xs ++ ys).
Proof.
  intros Hxs%filter_nonempty_elem Hys%filter_nonempty_elem.
  assert (Forall (fun arg => arg <> "") (filter (fun arg => arg <> "") xs))
    as Hfx by (apply Forall_forall; intros a Ha; by apply list_elem_of_filter in Ha as [? _]).
  assert (Forall (fun arg => arg <> "") (filter (fun arg => arg <> "") ys))
    as Hfy by (apply Forall_forall; intros a Ha; by apply list_elem_of_filter in Ha as [? _]).
  pose proof (join_nonempty_parts _ Hfx Hxs) as Hjx.
  pose proof (join_nonempty_parts _ Hfy Hys) as Hjy.
  assert (join_path xs = normalize (join "/" (filter (fun arg => arg <> "") xs)))
    as Hx by (unfold join_path; by destruct (filter _ xs)).
  destruct (normalize_resplit _ Hjx) as (Hn & _ & _).
  unfold join_path at 1 3. rewrite filter_cons_True by (by rewrite Hx).
  rewrite filter_app.
  destruct (filter (fun arg => arg <> "") ys) as [|y fy] eqn:Ey; [done|].
  destruct (filter (fun arg => arg <> "") xs) as [|x fx] eqn:Ex; [done|].
  rewrite join_cons_cons, Hx.
  rewrite (normalize_nest _ _ Hjx Hjy).
  rewrite <- (join_app "/" (x :: fx) (y :: fy)) by done.
  reflexivity.
Qed.

(** The target, computed in one [path.join] from the base directory. *)
Lemma filepath_from_baseDir (h : Host) (p : Problem) :
  path_join h = join_path ->
  filepath h p
  = path_join h [baseDir h; folder p; slugify (title p) +:+ ".mdx"].
Proof.
  intros Hjoin. unfold filepath, docsPath, baseDir. rewrite Hjoin.
  pose proof (plain_nonempty _ (filename_plain p)) as Hname.
  change (slugify (title p) +:+ ".mdx") with (filename p).
  rewrite (join_path_nest [__dirname h; ".."; "docs"; "leetcode-75"; folder p]
             [filename p]).
  - rewrite (join_path_nest [__dirname h; ".."; "docs"; "leetcode-75"]
               [folder p; filename p]); [done|..].
    + exists "..". split; [|done]. set_solver.
    + exists (filename p). split; [|done]. set_solver.
  - exists "..". split; [|done]. set_solver.
  - exists (filename p). split; [|done]. set_solver.
Qed.

End PosixNest.

(** ** The claims of the specification *)

Lemma scaffold_frame (h : Host) (ps : list Problem) (w : World)
    (path : string) (n : node) :
  disk w !! path = Some n ->
  disk (world_of (scaffold h ps w)) !! path = Some n.
Proof.
  intros Hn. rewrite scaffold_unfold.
  pose proof (forEach_frame h ps w path n Hn) as Hf.
  by destruct (forEach (scaffold_one h) ps w).
Qed.

(** C1.  Non-destructive skip.  When the target path of a descriptor
    already holds something, the descriptor is skipped: its step prints the
    "skipped" line for the path and leaves the disk as it is, whatever the
    path holds (the step only asks whether the path exists).  The whole
    run, whether it completes or throws, leaves the content of the path
    unchanged, and a run that completes prints the "skipped" line at the
    position of the descriptor. *)
Theorem existing_target_untouched (h : Host) (ps : list Problem) (w : World)
    (p : Problem) (n : node) :
  disk w !! filepath h p = Some n ->
  scaffold_one h p w = Ok tt (with_line w (skipped_line (filepath h p)))
  /\ (forall n' : node,
        let w0 := {| disk := <[filepath h p := n']> (disk w);
                     stdout := stdout w |} in
        scaffold_one h p w0
        = Ok tt (with_line w0 (skipped_line (filepath h p))))
  /\ disk (world_of (scaffold h ps w)) !! filepath h p = Some n
  /\ (forall (w' : World) (i : nat),
        scaffold h ps w = Ok tt w' -> ps !! i = Some p ->
        printed w w' !! i = Some (skipped_line (filepath h p))).
Proof.
  intros Hn. repeat split.
  - apply scaffold_one_skip. rewrite Hn. eauto.
  - intros n' w0. apply scaffold_one_skip. subst w0. cbn [disk].
    rewrite lookup_insert_eq. eauto.
  - by apply scaffold_frame.
  - intros w' i Hrun Hi. apply scaffold_ok_report in Hrun as [_ ->].
    rewrite lookup_app_l.
    + rewrite list_lookup_fmap.
      rewrite (report_lookup_existing h _ _ _ p) by (rewrite ?Hn; eauto).
      reflexivity.
    + rewrite length_fmap, report_length. by eapply lookup_lt_Some.
Qed.

Lemma existing_target_untouched_witness :
  disk hand_edited !! filepath demo_host removing_stars
    = Some (File "my own notes")
  /\ disk (world_of (scaffold demo_host demo_problems hand_edited))
       !! filepath demo_host removing_stars
     = Some (File "my own notes").
Proof.
  split; [vm_compute; reflexivity|].
  apply (existing_target_untouched demo_host demo_problems hand_edited
           removing_stars (File "my own notes")).
  vm_compute; reflexivity.
Defined.

(** C2.  Idempotence.  After a run that completes, a second run on the
    same descriptors completes too, leaves the disk exactly as the first
    run left it, and reports every descriptor as skipped: it prints the
    "skipped" line of every descriptor, in order, then the summary line. *)
Theorem scaffold_idempotent (h : Host) (ps : list Problem) (w w1 : World) :
  scaffold h ps w = Ok tt w1 ->
  exists w2 : World,
    scaffold h ps w1 = Ok tt w2
    /\ disk w2 = disk w1
    /\ report h (disk w1) ps = (fun p => skipped (filepath h p)) <$> ps
    /\ printed w1 w2
       = ((fun p => skipped_line (filepath h p)) <$> ps) ++ [summary_line].
Proof.
  intros Hrun. apply scaffold_ok_report in Hrun as [Hd _].
  assert (forall p, p ∈ ps -> is_Some (disk w1 !! filepath h p)) as Hall.
  { intros p Hp. rewrite Hd. by apply disk_after_targets. }
  eexists. rewrite scaffold_unfold, forEach_all_exist by done.
  split; [reflexivity|]. split; [reflexivity|].
  split; [by apply report_all_exist|].
  apply printed_app. cbn [stdout with_line]. by rewrite <- app_assoc.
Qed.

Lemma scaffold_idempotent_witness :
  scaffold demo_host demo_problems stack_dir_only = Ok tt after_first_run
  /\ exists w2 : World,
       scaffold demo_host demo_problems after_first_run = Ok tt w2
       /\ disk w2 = disk after_first_run
       /\ report demo_host (disk after_first_run) demo_problems
          = (fun p => skipped (filepath demo_host p)) <$> demo_problems
       /\ printed after_first_run w2
          = ((fun p => skipped_line (filepath demo_host p)) <$> demo_problems)
            ++ [summary_line].
Proof.
  split; [vm_compute; reflexivity|].
  apply (scaffold_idempotent demo_host demo_problems stack_dir_only).
  vm_compute; reflexivity.
Defined.

(** ** The rendered text *)

Lemma occurs_in_intro (pre sub post s : string) :
  s = pre +:+ sub +:+ post -> occurs_in sub s.
Proof. intros ->. by exists pre, post. Qed.

Lemma template_has_position (p : Problem) :
  occurs_in ("sidebar_position: " +:+ number_to_string (position p) +:+ LF)
    (generateProblemTemplate p).
Proof.
  eapply (occurs_in_intro ("---" +:+ LF)). unfold generateProblemTemplate.
  rewrite !append_assoc. reflexivity.
Qed.

Lemma template_has_title (p : Problem) :
  occurs_in ("title: " +:+ dquote +:+ title p +:+ dquote +:+ LF)
    (generateProblemTemplate p).
Proof.
  eapply (occurs_in_intro
            ("---" +:+ LF +:+
             "sidebar_position: " +:+ number_to_string (position p) +:+ LF)).
  unfold generateProblemTemplate. rewrite !append_assoc. reflexivity.
Qed.

Lemma template_has_tags (p : Problem) :
  occurs_in
    ("tags: [" +:+
     join ", " ((fun tag => dquote +:+ tag +:+ dquote) <$> tags p) +:+
     "]" +:+ LF)
    (generateProblemTemplate p).
Proof.
  eapply (occurs_in_intro
            ("---" +:+ LF +:+
             "sidebar_position: " +:+ number_to_string (position p) +:+ LF +:+
             "title: " +:+ dquote +:+ title p +:+ dquote +:+ LF)).
  unfold generateProblemTemplate, tagsString. rewrite !append_assoc.
  reflexivity.
Qed.

Lemma template_has_difficulty (p : Problem) :
  occurs_in ("> **Difficulty:** " +:+ difficulty p +:+ LF)
    (generateProblemTemplate p).
Proof.
  eapply (occurs_in_intro
            ("---" +:+ LF +:+
             "sidebar_position: " +:+ number_to_string (position p) +:+ LF +:+
             "title: " +:+ dquote +:+ title p +:+ dquote +:+ LF +:+
             "tags: [" +:+ tagsString p +:+ "]" +:+ LF +:+
             "---" +:+ LF +:+ LF +:+ "# " +:+ title p +:+ LF +:+ LF)).
  unfold generateProblemTemplate. rewrite !append_assoc. reflexivity.
Qed.

(** *** The decimal numeral of the position *)

Lemma digits_value_acc (d : Decimal.uint) (acc : positive) :
  digits_value (N.pos acc) (NilEmpty.string_of_uint d)
  = Some (N.pos (Pos.of_uint_acc d acc)).
Proof.
  revert acc. induction d; intros acc; cbn [NilEmpty.string_of_uint digits_value];
    [reflexivity|..];
    cbn [Pos.of_uint_acc]; rewrite <- IHd;
    match goal with
    | |- context [digit_value ?c] =>
        let v := eval vm_compute in (digit_value c) in
        change (digit_value c) with v
    end;
    cbv iota beta; f_equal; lia.
Qed.

Lemma digits_value_uint (d : Decimal.uint) :
  digits_value 0 (NilEmpty.string_of_uint d) = Some (N.of_uint d).
Proof.
  unfold N.of_uint.
  induction d; cbn [NilEmpty.string_of_uint digits_value Pos.of_uint];
    [reflexivity|exact IHd|..];
    match goal with
    | |- context [digit_value ?c] =>
        let v := eval vm_compute in (digit_value c) in
        change (digit_value c) with v
    end;
    cbv iota beta; apply digits_value_acc.
Qed.

Lemma digits_value_number (n : N) :
  digits_value 0 (number_to_string n) = Some n.
Proof.
  unfold number_to_string. by rewrite digits_value_uint, DecimalN.Unsigned.of_to.
Qed.

Lemma unorm_shape (d : Decimal.uint) :
  NilEmpty.string_of_uint (Decimal.unorm d) = "0"
  \/ exists c r, NilEmpty.string_of_uint (Decimal.unorm d) = String c r
                 /\ (c =? "0")%char = false.
Proof.
  induction d; [by left|exact IHd|..]; right; eexists _, _; split;
    reflexivity.
Qed.

Lemma number_to_string_shape (n : N) :
  number_to_string n = "0"
  \/ exists c r, number_to_string n = String c r /\ (c =? "0")%char = false.
Proof.
  unfold number_to_string.
  pose proof (DecimalN.Unsigned.to_of (N.to_uint n)) as H.
  rewrite DecimalN.Unsigned.of_to in H. rewrite H. apply unorm_shape.
Qed.

(** What the template prints for a position reads back as the position. *)
Lemma decimal_value_number (n : N) :
  decimal_value (number_to_string n) = Some n.
Proof.
  pose proof (digits_value_number n) as Hv.
  destruct (number_to_string_shape n) as [E|(c & r & E & Hc)];
    rewrite E in *; unfold decimal_value.
  - exact Hv.
  - by rewrite Hc.
Qed.


Lemma digit_value_cases (c : ascii) (k : N) :
  digit_value c = Some k ->
  (c = "0" /\ k = 0)%char%N \/ (c = "1" /\ k = 1)%char%N
  \/ (c = "2" /\ k = 2)%char%N \/ (c = "3" /\ k = 3)%char%N
  \/ (c = "4" /\ k = 4)%char%N \/ (c = "5" /\ k = 5)%char%N
  \/ (c = "6" /\ k = 6)%char%N \/ (c = "7" /\ k = 7)%char%N
  \/ (c = "8" /\ k = 8)%char%N \/ (c = "9" /\ k = 9)%char%N.
Proof.
  intros H.
  destruct c as [[] [] [] [] [] [] [] []]; vm_compute in H; try discriminate;
    injection H as <-;
    repeat ((left; split; reflexivity) || right); split; reflexivity.
Qed.

Lemma digits_value_parse (s : string) (acc n : N) :
  digits_value acc s = Some n ->
  exists d : Decimal.uint,
    NilEmpty.uint_of_string s = Some d
    /\ n = match acc with
           | N0 => N.of_uint d
           | N.pos a => N.pos (Pos.of_uint_acc d a)
           end.
Proof.
  revert acc n. induction s as [|c r IH]; intros acc n.
  - intros [= <-]. exists Decimal.Nil. split; [done|]. by destruct acc.
  - cbn [digits_value]. destruct (digit_value c) as [k|] eqn:Hk; [|done].
    intros (d & Hd & ->)%IH.
    cbn [NilEmpty.uint_of_string]. rewrite Hd.
    apply digit_value_cases in Hk.
    destruct Hk as [[-> ->]|[[-> ->]|[[-> ->]|[[-> ->]|[[-> ->]|[[-> ->]|
                   [[-> ->]|[[-> ->]|[[-> ->]|[-> ->]]]]]]]]]];
      eexists; (split; [reflexivity|]); destruct acc as [|a];
      cbn [N.mul N.add N.of_uint Pos.of_uint Pos.of_uint_acc];
      try reflexivity; f_equal; f_equal; lia.
Qed.

(** A number has one numeral only, the one the template prints. *)
Lemma decimal_value_unique (s : string) (n : N) :
  decimal_value s = Some n -> s = number_to_string n.
Proof.
  unfold decimal_value. destruct s as [|c r]; [done|].
  destruct ((c =? "0")%char && negb (String.eqb r "")) eqn:Hz; [done|].
  intros (d & Hd & ->)%digits_value_parse.
  apply NilEmpty.sus in Hd as Hs. rewrite <- Hs.
  unfold number_to_string. rewrite DecimalN.Unsigned.to_of. f_equal.
  symmetry.
  destruct d; try reflexivity.
  - done.
  - cbn in Hs. injection Hs as <- <-. cbn in Hz.
    destruct d; [reflexivity|..]; done.
Qed.

Example tags_keep_order_and_duplicates :
  tagsString (problem "f" 1 "t" "Easy" ["b"; "a"; "b"])
  = dquote +:+ "b" +:+ dquote +:+ ", " +:+
    dquote +:+ "a" +:+ dquote +:+ ", " +:+
    dquote +:+ "b" +:+ dquote.
Proof. reflexivity. Qed.

(** C4.  One output per new descriptor.  When the target path of a
    descriptor does not exist and the write goes through, the step creates
    exactly one file: the disk gains the target path and nothing else
    changes, and the "created" line is printed.  The file holds the
    rendered template, whose text contains the position as
    [sidebar_position], written as the one decimal numeral that reads as
    the position, the title, the difficulty, and the tags, each in double
    quotes, in the order of the descriptor, none removed.  The position is
    an integer that JavaScript represents exactly. *)
Theorem new_descriptor_creates_one_file (h : Host) (p : Problem) (w : World) :
  disk w !! filepath h p = None ->
  write_ok h (disk w) (filepath h p) (generateProblemTemplate p) = true ->
  safe_integer (position p) ->
  exists w' : World,
    scaffold_one h p w = Ok tt w'
    /\ disk w' = <[filepath h p := File (generateProblemTemplate p)]> (disk w)
    /\ dom (disk w') = {[filepath h p]} ∪ dom (disk w)
    /\ size (disk w') = S (size (disk w))
    /\ (forall path : string,
          path <> filepath h p -> disk w' !! path = disk w !! path)
    /\ printed w w' = [created_line (filepath h p)]
    /\ (exists digits : string,
          decimal_value digits = Some (position p)
          /\ (forall digits' : string,
                decimal_value digits' = Some (position p) -> digits' = digits)
          /\ occurs_in ("sidebar_position: " +:+ digits +:+ LF)
               (generateProblemTemplate p))
    /\ occurs_in ("title: " +:+ dquote +:+ title p +:+ dquote +:+ LF)
         (generateProblemTemplate p)
    /\ occurs_in ("> **Difficulty:** " +:+ difficulty p +:+ LF)
         (generateProblemTemplate p)
    /\ occurs_in
         ("tags: [" +:+
          join ", " ((fun tag => dquote +:+ tag +:+ dquote) <$> tags p) +:+
          "]" +:+ LF)
         (generateProblemTemplate p).
Proof.
  intros Hno Hok _. eexists. split; [by apply scaffold_one_create|].
  cbn [disk stdout with_line with_file].
  split; [reflexivity|]. split; [apply dom_insert_L|].
  split; [by apply map_size_insert_None|].
  split; [intros path Hp; by apply lookup_insert_ne|].
  split; [by apply printed_app|].
  split.
  { exists (number_to_string (position p)).
    split; [apply decimal_value_number|].
    split; [intros d'; apply decimal_value_unique|apply template_has_position]. }
  auto using template_has_title, template_has_difficulty, template_has_tags.
Qed.

Lemma new_descriptor_creates_one_file_witness :
  (disk stack_dir_only !! filepath demo_host removing_stars = None
   /\ write_ok demo_host (disk stack_dir_only)
        (filepath demo_host removing_stars)
        (generateProblemTemplate removing_stars) = true
   /\ safe_integer (position removing_stars))
  /\ (exists w' : World,
        scaffold_one demo_host removing_stars stack_dir_only = Ok tt w'
        /\ disk w' !! removing_stars_path
           = Some (File (generateProblemTemplate removing_stars)))
  /\ occurs_in ("sidebar_position: 1" +:+ LF)
       (generateProblemTemplate removing_stars)
  /\ exists rest : string,
       generateProblemTemplate removing_stars
       = "---" +:+ LF +:+ "sidebar_position: 1" +:+ LF +:+
         "title: " +:+ dquote +:+ "Removing Stars From a String" +:+ dquote
         +:+ LF +:+
         "tags: [" +:+ dquote +:+ "String" +:+ dquote +:+ ", " +:+
                      dquote +:+ "Stack" +:+ dquote +:+ ", " +:+
                      dquote +:+ "Simulation" +:+ dquote +:+ "]" +:+ LF +:+
         "---" +:+ LF +:+ LF +:+
         "# Removing Stars From a String" +:+ LF +:+ LF +:+
         "> **Difficulty:** Medium" +:+ LF +:+ rest.
Proof.
  assert (disk stack_dir_only !! filepath demo_host removing_stars = None)
    as H1 by (vm_compute; reflexivity).
  assert (write_ok demo_host (disk stack_dir_only)
            (filepath demo_host removing_stars)
            (generateProblemTemplate removing_stars) = true)
    as H2 by (vm_compute; reflexivity).
  assert (safe_integer (position removing_stars)) as H3 by reflexivity.
  destruct (new_descriptor_creates_one_file demo_host removing_stars
              stack_dir_only H1 H2 H3)
    as (w' & Hrun & Hdisk & _ & _ & _ & _ & (digits & _ & Huniq & Hocc) & _).
  split; [done|]. split.
  { exists w'. split; [exact Hrun|]. rewrite Hdisk.
    replace removing_stars_path with (filepath demo_host removing_stars)
      by (vm_compute; reflexivity).
    apply lookup_insert_eq. }
  split.
  { rewrite <- (Huniq "1" eq_refl) in Hocc. exact Hocc. }
  eexists. vm_compute. reflexivity.
Defined.

(** ** Errors *)

(** The only way the loop throws: the descriptors before one of them were
    processed, its target did not exist, and the host refused the write. *)
Lemma forEach_throw_inv (h : Host) (ps : list Problem) (w w' : World)
    (e : Error) :
  forEach (scaffold_one h) ps w = Throw e w' ->
  exists (pre : list Problem) (p : Problem) (post : list Problem),
    ps = pre ++ p :: post
    /\ forEach (scaffold_one h) pre w = Ok tt w'
    /\ disk w' !! filepath h p = None
    /\ write_ok h (disk w') (filepath h p) (generateProblemTemplate p) = false
    /\ e = IOError (filepath h p).
Proof.
  revert w. induction ps as [|q ps IH]; intros w; [done|].
  rewrite forEach_cons.
  destruct (scaffold_one_cases h q w) as [Hex|Hno Hok|Hno Hok].
  - intros (pre & p & post & -> & Hpre & Hrest)%IH.
    exists (q :: pre), p, post. split; [done|]. split; [|done].
    rewrite forEach_cons, scaffold_one_skip by done. exact Hpre.
  - intros (pre & p & post & -> & Hpre & Hrest)%IH.
    exists (q :: pre), p, post. split; [done|]. split; [|done].
    rewrite forEach_cons, scaffold_one_create by done. exact Hpre.
  - intros [= <- <-]. by exists [], q, ps.
Qed.

(** C5.  Error policy.  Once the descriptors before [p] are processed, if
    the target of [p] does not exist and the write fails, the run ends
    there with the I/O error: the world is the one in which the write was
    attempted, so nothing was printed for [p], no later descriptor was
    processed (the result is the same for every [post]) and no summary line
    was printed.  An existing target is never an error: the step prints
    the "skipped" line and the loop goes on with the next descriptor; and
    every error of a run is a refused write on a target that did not
    exist. *)
Theorem first_write_failure_aborts (h : Host) (pre : list Problem)
    (p : Problem) (post : list Problem) (w w1 : World) :
  forEach (scaffold_one h) pre w = Ok tt w1 ->
  disk w1 !! filepath h p = None ->
  write_ok h (disk w1) (filepath h p) (generateProblemTemplate p) = false ->
  scaffold h (pre ++ p :: post) w = Throw (IOError (filepath h p)) w1
  /\ printed w w1 = (outcome_line <$> report h (disk w) pre)
  /\ (forall (q : Problem) (qs : list Problem) (w0 : World),
        is_Some (disk w0 !! filepath h q) ->
        forEach (scaffold_one h) (q :: qs) w0
        = forEach (scaffold_one h) qs
            (with_line w0 (skipped_line (filepath h q))))
  /\ (forall (qs : list Problem) (w0 w0' : World) (e : Error),
        scaffold h qs w0 = Throw e w0' ->
        exists q : Problem,
          q ∈ qs /\ e = IOError (filepath h q)
          /\ disk w0' !! filepath h q = None
          /\ write_ok h (disk w0') (filepath h q) (generateProblemTemplate q)
             = false).
Proof.
  intros Hpre Hno Hok. repeat split.
  - rewrite scaffold_unfold, forEach_app, Hpre, forEach_cons.
    by rewrite scaffold_one_throw.
  - apply printed_app. by apply forEach_ok_report in Hpre as [_ ->].
  - intros q qs w0 Hex. by rewrite forEach_cons, scaffold_one_skip.
  - intros qs w0 w0' e. rewrite scaffold_unfold.
    destruct (forEach (scaffold_one h) qs w0) as [[] w2|e2 w2] eqn:Hrun;
      [done|].
    intros [= -> ->].
    apply forEach_throw_inv in Hrun
      as (pre' & q & post' & -> & _ & Hq & Hw & ->).
    exists q. split; [|done]. apply elem_of_app. right. by left.
Qed.

Lemma first_write_failure_aborts_witness :
  forEach (scaffold_one demo_host) [removing_stars] hand_edited
    = Ok tt (with_line hand_edited (skipped_line removing_stars_path))
  /\ scaffold demo_host
       ([removing_stars]
        ++ problem "queue" 1 "Number of Recent Calls" "Easy" ["Design"]
        :: [punctuation_only])
       hand_edited
     = Throw (IOError "/repo/docs/leetcode-75/queue/number-of-recent-calls.mdx")
         (with_line hand_edited (skipped_line removing_stars_path)).
Proof.
  split; [vm_compute; reflexivity|].
  apply (first_write_failure_aborts demo_host [removing_stars]
           (problem "queue" 1 "Number of Recent Calls" "Easy" ["Design"])
           [punctuation_only] hand_edited
           (with_line hand_edited (skipped_line removing_stars_path)));
    vm_compute; reflexivity.
Defined.

(** ** The report *)

(** C7, as amended.  A run that completes prints one line per descriptor,
    in the order of the descriptors, each the "created" or the "skipped"
    line of the target path of its descriptor, and then one summary line.
    The summary line is a fixed text: it carries no counts. *)
Theorem report_shape (h : Host) (ps : list Problem) (w w' : World) :
  scaffold h ps w = Ok tt w' ->
  printed w w' = (outcome_line <$> report h (disk w) ps) ++ [summary_line]
  /\ length (report h (disk w) ps) = length ps
  /\ Forall2
       (fun p o => o = created (filepath h p) \/ o = skipped (filepath h p))
       ps (report h (disk w) ps)
  /\ last (printed w w') = Some summary_line.
Proof.
  intros [_ Hp]%scaffold_ok_report. rewrite Hp.
  split; [reflexivity|]. split; [apply report_length|].
  split; [apply report_cases|]. apply last_snoc.
Qed.

Lemma report_shape_witness :
  scaffold demo_host demo_problems stack_dir_only = Ok tt after_first_run
  /\ printed stack_dir_only after_first_run
     = [created_line removing_stars_path;
        skipped_line removing_stars_path;
        created_line "/repo/docs/leetcode-75/stack/.mdx";
        summary_line].
Proof.
  split; [vm_compute; reflexivity|].
  destruct (report_shape demo_host demo_problems stack_dir_only
              after_first_run) as [Hp _]; [vm_compute; reflexivity|].
  rewrite Hp. vm_compute. reflexivity.
Defined.

(** The claim as the specification states it fails: no reading of the
    summary line gives the final counts.  One descriptor, run on a disk
    without its file and run again: one created and none skipped, then none
    created and one skipped, and the same summary line both times. *)
Lemma summary_line_carries_no_counts :
  ~ exists decode : string -> nat * nat,
      forall (h : Host) (ps : list Problem) (w w' : World) (line : string),
        scaffold h ps w = Ok tt w' ->
        last (printed w w') = Some line ->
        decode line = counts h (disk w) ps.
Proof.
  intros [decode Hdec].
  pose (w1 := world_of (scaffold demo_host [removing_stars] stack_dir_only)).
  pose (w2 := world_of (scaffold demo_host [removing_stars] w1)).
  assert (decode summary_line = (1, 0)) as H1.
  { apply (Hdec demo_host [removing_stars] stack_dir_only w1);
      vm_compute; reflexivity. }
  assert (decode summary_line = (0, 1)) as H2.
  { apply (Hdec demo_host [removing_stars] w1 w2); vm_compute; reflexivity. }
  congruence.
Qed.

(** ** Colliding slugs *)

(** C8.  Same-run slug collision.  Let [p'] come after [p] in the
    descriptors, with the folder of [p] and a title of the same slug, let no
    descriptor before [p] target the path of [p], and let the path not
    exist.  Then the two target the same path; whatever the run does, the
    path ends up absent or holding the rendered text of [p]; and when the
    run completes, the path holds the rendered text of [p], the line of [p]
    is the "created" line and the line of [p'] the "skipped" line. *)
Theorem slug_collision_first_wins (h : Host) (pre : list Problem)
    (p : Problem) (mid : list Problem) (p' : Problem) (post : list Problem)
    (w : World) :
  folder p' = folder p ->
  slugify (title p') = slugify (title p) ->
  (forall q : Problem, q ∈ pre -> filepath h q <> filepath h p) ->
  disk w !! filepath h p = None ->
  let ps := pre ++ p :: mid ++ p' :: post in
  filepath h p' = filepath h p
  /\ (disk (world_of (scaffold h ps w)) !! filepath h p = None
      \/ disk (world_of (scaffold h ps w)) !! filepath h p
         = Some (File (generateProblemTemplate p)))
  /\ (forall w' : World,
        scaffold h ps w = Ok tt w' ->
        disk w' !! filepath h p = Some (File (generateProblemTemplate p))
        /\ printed w w' !! length pre = Some (created_line (filepath h p))
        /\ printed w w' !! (length pre + S (length mid))
           = Some (skipped_line (filepath h p))).
Proof.
  intros Hfolder Hslug Hpre Hno ps.
  assert (filepath h p' = filepath h p) as Hpath.
  { unfold filepath, docsPath, filename. by rewrite Hfolder, Hslug. }
  split; [exact Hpath|].
  pose proof (forEach_untargeted h pre w (filepath h p) Hpre) as Hpre_disk.
  rewrite Hno in Hpre_disk.
  split.
  - subst ps. rewrite scaffold_unfold, forEach_app.
    destruct (forEach (scaffold_one h) pre w) as [[] w1|e w1] eqn:Hrun1;
      cbn [world_of] in Hpre_disk; [|by left].
    rewrite forEach_cons.
    destruct (scaffold_one_cases h p w1) as [Hex|Hno1 Hok|Hno1 Hok].
    + rewrite Hpre_disk in Hex. by destruct Hex.
    + right.
      pose proof (forEach_frame h (mid ++ p' :: post)
        (with_line (with_file w1 (filepath h p) (generateProblemTemplate p))
           (created_line (filepath h p)))
        (filepath h p) (File (generateProblemTemplate p))) as Hf.
      cbn [disk with_line with_file] in Hf.
      specialize (Hf (lookup_insert_eq _ _ _)).
      by destruct (forEach _ (mid ++ p' :: post) _).
    + by left.
  - intros w' Hrun. apply scaffold_ok_report in Hrun as [Hd Hp].
    assert (disk_after h (disk w) pre !! filepath h p = None) as Hd1.
    { by rewrite disk_after_untargeted. }
    subst ps. rewrite Hd, Hp, disk_after_app, report_app.
    cbn [disk_after report].
    rewrite !bool_decide_eq_false_2 by (rewrite Hd1; by intros [? ?]).
    set (d2 := <[filepath h p := File (generateProblemTemplate p)]>
                 (disk_after h (disk w) pre)).
    assert (d2 !! filepath h p = Some (File (generateProblemTemplate p)))
      as Hd2 by apply lookup_insert_eq.
    split; [by apply disk_after_frame|].
    rewrite fmap_app, <- app_assoc.
    split.
    + rewrite lookup_app_r by (by rewrite length_fmap, report_length).
      rewrite length_fmap, report_length, Nat.sub_diag. reflexivity.
    + rewrite lookup_app_r by (rewrite length_fmap, report_length; lia).
      rewrite length_fmap, report_length.
      replace (length pre + S (length mid) - length pre)
        with (S (length mid)) by lia.
      rewrite fmap_cons. cbn [app]. rewrite lookup_cons.
      rewrite lookup_app_l
        by (rewrite length_fmap, report_length, length_app; cbn; lia).
      rewrite list_lookup_fmap.
      rewrite (report_lookup_existing h d2 _ _ p').
      * by rewrite Hpath.
      * rewrite Hpath, Hd2. eauto.
      * by rewrite list_lookup_middle.
Qed.

Lemma slug_collision_first_wins_witness :
  (folder removing_stars_twin = folder removing_stars
   /\ slugify (title removing_stars_twin) = slugify (title removing_stars)
   /\ title removing_stars_twin <> title removing_stars
   /\ disk stack_dir_only !! filepath demo_host removing_stars = None)
  /\ (scaffold demo_host demo_problems stack_dir_only = Ok tt after_first_run
      /\ disk after_first_run !! filepath demo_host removing_stars
         = Some (File (generateProblemTemplate removing_stars))
      /\ printed stack_dir_only after_first_run !! 1
         = Some (skipped_line (filepath demo_host removing_stars))).
Proof.
  split.
  { split; [reflexivity|]. split; [vm_compute; reflexivity|].
    split; [discriminate | vm_compute; reflexivity]. }
  split; [vm_compute; reflexivity|].
  destruct (slug_collision_first_wins demo_host [] removing_stars []
              removing_stars_twin [punctuation_only] stack_dir_only)
    as (_ & _ & Hrun);
    [vm_compute; reflexivity | vm_compute; reflexivity
    | intros q Hq; inversion Hq | vm_compute; reflexivity |].
  destruct (Hrun after_first_run) as (Hdisk & _ & Hline);
    [vm_compute; reflexivity|].
  cbn [length Nat.add] in Hline.
  split; [exact Hdisk | exact Hline].
Defined.

(** ** The empty slug *)

Lemma collapse_from_all_outside (s : string) :
  all_chars Char.not_slug_char s = true -> collapse_from true s = "".
Proof.
  induction s as [|c r IH]; [done|]. cbn [all_chars collapse_from].
  intros [-> Hr]%andb_prop. by apply IH.
Qed.

Lemma slugify_all_outside (title : string) :
  all_chars Char.not_slug_char (toLowerCase title) = true ->
  slugify title = "".
Proof.
  intros Hall. unfold slugify. rewrite replace_run_collapse_from.
  destruct (toLowerCase title) as [|c r]; [reflexivity|].
  cbn [all_chars] in Hall. apply andb_prop in Hall as [Hc Hr].
  cbn [collapse_from]. rewrite Hc, (collapse_from_all_outside r Hr).
  reflexivity.
Qed.

(** C9.  Empty slug.  When no character of the lower-cased title is in
    [[a-z0-9]], the slug is the empty string and the file name is ".mdx";
    the target is that name joined to the directory of the category, and
    the descriptor is processed like any other: on a disk without the
    target, when the write goes through, the file is created there and the
    "created" line is printed.  With POSIX paths the target is the file
    [.mdx] in the directory of the category. *)
Theorem empty_slug_targets_dot_mdx (h : Host) (p : Problem) :
  all_chars Char.not_slug_char (toLowerCase (title p)) = true ->
  slugify (title p) = ""
  /\ filename p = ".mdx"
  /\ filepath h p = path_join h [docsPath h p; ".mdx"]
  /\ (forall w : World,
        disk w !! path_join h [docsPath h p; ".mdx"] = None ->
        write_ok h (disk w) (path_join h [docsPath h p; ".mdx"])
          (generateProblemTemplate p) = true ->
        scaffold_one h p w
        = Ok tt
            (with_line
               (with_file w (path_join h [docsPath h p; ".mdx"])
                  (generateProblemTemplate p))
               (created_line (path_join h [docsPath h p; ".mdx"]))))
  /\ (forall (init : list string) (last : string),
        path_join h = Posix.join_path ->
        __dirname h = "/" +:+ join "/" (init ++ [last]) ->
        Forall (fun seg => plain_segment seg = true) (init ++ [last]) ->
        plain_segment (folder p) = true ->
        filepath h p
        = "/" +:+ join "/" (init ++ ["docs"; "leetcode-75"; folder p; ".mdx"])).
Proof.
  intros Hall. pose proof (slugify_all_outside _ Hall) as Hslug.
  assert (filename p = ".mdx") as Hname by (unfold filename; by rewrite Hslug).
  assert (filepath h p = path_join h [docsPath h p; ".mdx"]) as Hpath
    by (unfold filepath; by rewrite Hname).
  split; [done|]. split; [done|]. split; [done|]. split.
  - intros w Hno Hok. rewrite <- Hpath in *. by apply scaffold_one_create.
  - intros init last Hjoin Hdir Hsegs Hfolder.
    rewrite (filepath_posix h init last p) by done. by rewrite Hslug.
Qed.

Lemma empty_slug_targets_dot_mdx_witness :
  all_chars Char.not_slug_char (toLowerCase (title punctuation_only)) = true
  /\ slugify (title punctuation_only) = ""
  /\ filename punctuation_only = ".mdx"
  /\ filepath demo_host punctuation_only = "/repo/docs/leetcode-75/stack/.mdx".
Proof.
  split; [vm_compute; reflexivity|].
  destruct (empty_slug_targets_dot_mdx demo_host punctuation_only)
    as (Hslug & Hname & Hpath & _); [vm_compute; reflexivity|].
  split; [exact Hslug|]. split; [exact Hname|].
  rewrite Hpath. vm_compute. reflexivity.
Defined.

(** ** The template reads four fields *)

(** C10.  Template purity.  Two descriptors with the same position, title,
    difficulty and tags have the same rendered text, whatever their
    folders; and whenever their steps write a file (on any hosts, on any
    disks), the two files hold the same content. *)
Theorem template_reads_four_fields (p1 p2 : Problem) :
  position p1 = position p2 ->
  title p1 = title p2 ->
  difficulty p1 = difficulty p2 ->
  tags p1 = tags p2 ->
  generateProblemTemplate p1 = generateProblemTemplate p2
  /\ (forall (h1 h2 : Host) (w1 w2 w1' w2' : World),
        disk w1 !! filepath h1 p1 = None ->
        disk w2 !! filepath h2 p2 = None ->
        scaffold_one h1 p1 w1 = Ok tt w1' ->
        scaffold_one h2 p2 w2 = Ok tt w2' ->
        exists content : string,
          disk w1' !! filepath h1 p1 = Some (File content)
          /\ disk w2' !! filepath h2 p2 = Some (File content)).
Proof.
  intros Hpos Htitle Hdiff Htags.
  assert (generateProblemTemplate p1 = generateProblemTemplate p2) as Heq.
  { unfold generateProblemTemplate, tagsString.
    by rewrite Hpos, Htitle, Hdiff, Htags. }
  split; [exact Heq|].
  intros h1 h2 w1 w2 w1' w2' Hno1 Hno2 Hrun1 Hrun2.
  exists (generateProblemTemplate p1).
  destruct (scaffold_one_cases h1 p1 w1) as [[? Hex]|_ _|]; [congruence| |done].
  destruct (scaffold_one_cases h2 p2 w2) as [[? Hex]|_ _|]; [congruence| |done].
  injection Hrun1 as <-. injection Hrun2 as <-.
  cbn [disk with_line with_file]. rewrite !lookup_insert_eq. by rewrite Heq.
Qed.

Lemma template_reads_four_fields_witness :
  folder (problem "queue" 1 "Removing Stars From a String" "Medium"
            ["String"; "Stack"; "Simulation"])
    <> folder removing_stars
  /\ generateProblemTemplate
       (problem "queue" 1 "Removing Stars From a String" "Medium"
          ["String"; "Stack"; "Simulation"])
     = generateProblemTemplate removing_stars.
Proof.
  split; [discriminate|].
  apply (template_reads_four_fields
           (problem "queue" 1 "Removing Stars From a String" "Medium"
              ["String"; "Stack"; "Simulation"])
           removing_stars); reflexivity.
Defined.

(** ** The layout of the output *)

(** The claim as the specification states it fails: the category
    directories are not directly under [docs].  On the host of the
    examples the note of "Removing Stars From a String" goes to
    [docs/leetcode-75/stack], not to [docs/stack]. *)
Lemma target_is_not_under_docs_category :
  filepath demo_host removing_stars
    = "/repo/docs/leetcode-75/stack/removing-stars-from-a-string.mdx"
  /\ filepath demo_host removing_stars
     <> "/repo/docs/stack/removing-stars-from-a-string.mdx"
  /\ filepath demo_host removing_stars
     <> path_join demo_host
          [path_join demo_host [__dirname demo_host; ".."; "docs"];
           folder removing_stars;
           slugify (title removing_stars) +:+ ".mdx"].
Proof.
  split; [vm_compute; reflexivity|].
  split; vm_compute; discriminate.
Qed.

(** C6, as amended.  The target path of a descriptor is the join of the
    base directory, the folder of its category and its file name, the slug
    followed by ".mdx", where the base directory is [docs/leetcode-75] next
    to the directory of the script and the join is Node's [path.join] on
    POSIX paths, whatever the directory of the script and the folder are.
    With a script directory made of plain segments and a plain folder name
    the target is
    [<parent of the script directory>/docs/leetcode-75/<folder>/<slug>.mdx].
    A run that completes leaves one file for each descriptor whose target
    did not exist: there is a file at the target, holding the template of
    a descriptor with that target, the descriptor's own template when no
    two descriptors share a target; whatever the run changed on the disk
    is the target of a descriptor and did not exist before; and the disk
    has grown by as many paths as there are descriptors that were reported
    as created. *)
Theorem target_path_layout (h : Host) (ps : list Problem) (w w' : World) :
  scaffold h ps w = Ok tt w' ->
  (path_join h = Posix.join_path ->
   forall p : Problem,
     filepath h p
     = path_join h [baseDir h; folder p; slugify (title p) +:+ ".mdx"])
  /\ (forall (init : list string) (last : string) (p : Problem),
        path_join h = Posix.join_path ->
        __dirname h = "/" +:+ join "/" (init ++ [last]) ->
        Forall (fun seg => plain_segment seg = true) (init ++ [last]) ->
        plain_segment (folder p) = true ->
        filepath h p
        = "/" +:+ join "/" (init ++ ["docs"; "leetcode-75"; folder p;
                                     slugify (title p) +:+ ".mdx"]))
  /\ (forall p : Problem,
        p ∈ ps -> disk w !! filepath h p = None ->
        exists p0 : Problem,
          p0 ∈ ps /\ filepath h p0 = filepath h p
          /\ disk w' !! filepath h p
             = Some (File (generateProblemTemplate p0)))
  /\ (NoDup (filepath h <$> ps) ->
      forall p : Problem,
        p ∈ ps -> disk w !! filepath h p = None ->
        disk w' !! filepath h p = Some (File (generateProblemTemplate p)))
  /\ (forall path : string,
        disk w' !! path <> disk w !! path ->
        disk w !! path = None
        /\ exists p : Problem, p ∈ ps /\ filepath h p = path)
  /\ size (disk w')
     = size (disk w)
       + length (filter (fun o => is_created o = true)
                   (report h (disk w) ps)).
Proof.
  intros [Hd _]%scaffold_ok_report. rewrite Hd.
  split; [intros Hjoin p; by apply filepath_from_baseDir|].
  split; [intros init last p; by apply filepath_posix|].
  split.
  { intros p Hp Hno. rewrite disk_after_lookup, Hno.
    destruct (first_target h (filepath h p) ps) as [p0|] eqn:E.
    - apply first_target_Some in E as [Hin Hpath]. by exists p0.
    - by destruct (first_target_None h _ _ E p Hp). }
  split.
  { intros Hnd p Hp Hno. rewrite disk_after_lookup, Hno.
    by rewrite (first_target_unique h _ ps p). }
  split; [intros path Hne; by apply disk_after_changed|].
  apply report_counts.
Qed.

Lemma target_path_layout_witness :
  scaffold demo_host demo_problems stack_dir_only = Ok tt after_first_run
  /\ filepath demo_host removing_stars
     = path_join demo_host
         [baseDir demo_host; "stack"; "removing-stars-from-a-string.mdx"]
  /\ baseDir demo_host = "/repo/docs/leetcode-75"
  /\ exists p0 : Problem,
       p0 ∈ demo_problems
       /\ filepath demo_host p0 = filepath demo_host punctuation_only
       /\ disk after_first_run !! filepath demo_host punctuation_only
          = Some (File (generateProblemTemplate p0)).
Proof.
  split; [vm_compute; reflexivity|].
  destruct (target_path_layout demo_host demo_problems stack_dir_only
              after_first_run) as (Hflat & _ & Hfile & _);
    [vm_compute; reflexivity|].
  split; [exact (Hflat eq_refl removing_stars)|].
  split; [vm_compute; reflexivity|].
  apply Hfile; [set_solver|vm_compute; reflexivity].
Defined.

(** On a POSIX host, with the script in [/repo/scripts], every descriptor
    of the table of the script goes to
    [/repo/docs/leetcode-75/<folder>/<slug>.mdx], and no two descriptors of
    the table share a target. *)
Example table_layout :
  Forall
    (fun p =>
       filepath demo_host p
       = "/repo/docs/leetcode-75/" +:+ folder p +:+ "/" +:+
         slugify (title p) +:+ ".mdx")
    problems
  /\ NoDup (filepath demo_host <$> problems).
Proof.
  split.
  - apply Forall_forall. intros p Hp.
    repeat (apply elem_of_cons in Hp as [->|Hp]; [vm_compute; reflexivity|]).
    inversion Hp.
  - refine (bool_decide_unpack (NoDup (filepath demo_host <$> problems)) _).
    vm_compute. exact I.
Qed.

(** The script on its own table, from an empty disk on which every write
    goes through: 75 files and 76 lines; and again from there: still 75
    files, and 76 more lines. *)
Example main_twice :
  match main (Posix.permissive "/repo/scripts") empty_world with
  | Ok _ w1 =>
      size (disk w1) = 75 /\ length (stdout w1) = 76
      /\ match main (Posix.permissive "/repo/scripts") w1 with
         | Ok _ w2 => size (disk w2) = 75 /\ length (printed w1 w2) = 76
         | Throw _ _ => False
         end
  | Throw _ _ => False
  end.
Proof. vm_compute. repeat split. Qed.

(** * Further properties of the script *)

Section SlugShape.
Import SlugSpec.

Lemma sparse_strip_leading (s : string) :
  sparse s = true -> sparse (strip_leading s) = true.
Proof.
  induction s as [|c r IH]; [done|]. cbn [strip_leading].
  destruct (Char.is_hyphen c); [|done]. cbn [sparse].
  intros [_ Hr]%andb_prop. by apply IH.
Qed.

Lemma starts_hyphen_strip_leading (s : string) :
  starts_hyphen (strip_leading s) = false.
Proof.
  induction s as [|c r IH]; [done|]. cbn [strip_leading].
  destruct (Char.is_hyphen c) eqn:E; [done|]. cbn. exact E.
Qed.

Lemma strip_trailing_cons (c : ascii) (r : string) :
  strip_trailing r <> "" ->
  strip_trailing (String c r) = String c (strip_trailing r).
Proof. cbn [strip_trailing]. by destruct (strip_trailing r). Qed.

Lemma starts_hyphen_strip_trailing (s : string) :
  starts_hyphen s = false -> starts_hyphen (strip_trailing s) = false.
Proof.
  destruct s as [|c r]; [done|]. cbn [starts_hyphen strip_trailing].
  intros Hc. rewrite Hc. by destruct (strip_trailing r).
Qed.

Lemma starts_hyphen_strip_trailing_nonempty (s : string) :
  strip_trailing s <> "" ->
  starts_hyphen (strip_trailing s) = starts_hyphen s.
Proof.
  destruct s as [|c r]; [done|]. cbn [starts_hyphen strip_trailing].
  destruct (strip_trailing r); [|done].
  destruct (Char.is_hyphen c) eqn:E; [done|]. intros _. cbn. exact E.
Qed.

Lemma sparse_strip_trailing (s : string) :
  sparse s = true -> sparse (strip_trailing s) = true.
Proof.
  induction s as [|c r IH]; [done|]. cbn [sparse].
  intros [Hc Hr]%andb_prop. specialize (IH Hr).
  destruct (decide (strip_trailing r = "")) as [E|E].
  - cbn [strip_trailing]. rewrite E. destruct (Char.is_hyphen c); [done|].
    cbn. by rewrite andb_false_r.
  - rewrite strip_trailing_cons by done. cbn [sparse].
    by rewrite starts_hyphen_strip_trailing_nonempty, Hc, IH.
Qed.

Lemma ends_hyphen_strip_trailing (s : string) :
  ends_hyphen (strip_trailing s) = false.
Proof.
  induction s as [|c r IH]; [done|].
  destruct (decide (strip_trailing r = "")) as [E|E].
  - cbn [strip_trailing]. rewrite E.
    destruct (Char.is_hyphen c) eqn:Ec; [done|]. cbn. exact Ec.
  - rewrite strip_trailing_cons by done.
    destruct (strip_trailing r) eqn:Er; [done|]. exact IH.
Qed.

(** The shape of a slug. *)
Lemma slugify_is_slug (title : string) : is_slug (slugify title) = true.
Proof.
  unfold is_slug. rewrite slugify_chars.
  unfold slugify. rewrite replace_run_collapse_from.
  rewrite replace_edge_strip by apply collapse_from_sparse.
  rewrite sparse_strip_trailing
    by apply sparse_strip_leading, collapse_from_sparse.
  rewrite starts_hyphen_strip_trailing by apply starts_hyphen_strip_leading.
  by rewrite ends_hyphen_strip_trailing.
Qed.

Lemma toLower_slug_or_hyphen (c : ascii) :
  slug_or_hyphen c = true -> Char.toLower c = c.
Proof. destruct c as [[] [] [] [] [] [] [] []]; by vm_compute. Qed.

Lemma toLowerCase_slug_chars (s : string) :
  all_chars slug_or_hyphen s = true -> toLowerCase s = s.
Proof.
  induction s as [|c r IH]; [done|]. cbn [all_chars toLowerCase].
  intros [Hc Hr]%andb_prop. by rewrite toLower_slug_or_hyphen, IH.
Qed.

Lemma slug_or_hyphen_cases (c : ascii) :
  slug_or_hyphen c = true -> Char.not_slug_char c = Char.is_hyphen c.
Proof. destruct c as [[] [] [] [] [] [] [] []]; by vm_compute. Qed.

Lemma collapse_from_fixed (s : string) :
  all_chars slug_or_hyphen s = true -> sparse s = true ->
  collapse_from false s = s
  /\ (starts_hyphen s = false -> collapse_from true s = s).
Proof.
  induction s as [|c r IH]; [done|]. cbn [all_chars sparse].
  intros [Hc Hr]%andb_prop [Hs Hsr]%andb_prop.
  destruct (IH Hr Hsr) as [IH0 IH1].
  cbn [collapse_from starts_hyphen]. rewrite (slug_or_hyphen_cases c Hc).
  destruct (Char.is_hyphen c) eqn:Eh.
  - cbn [andb negb] in Hs. apply Bool.negb_true_iff in Hs.
    rewrite (IH1 Hs). split; [|done].
    unfold Char.is_hyphen in Eh. apply Ascii.eqb_eq in Eh. by subst c.
  - by rewrite IH0.
Qed.

Lemma strip_trailing_fixed (s : string) :
  ends_hyphen s = false -> strip_trailing s = s.
Proof.
  induction s as [|c r IH]; [done|].
  destruct r as [|d r'].
  - cbn. by intros ->.
  - intros Hr. change (ends_hyphen (String c (String d r')))
      with (ends_hyphen (String d r')) in Hr.
    rewrite strip_trailing_cons; rewrite (IH Hr); done.
Qed.

Lemma slugify_fixed (s : string) : is_slug s = true -> slugify s = s.
Proof.
  unfold is_slug.
  intros [[[Hc Hs]%andb_prop Hl]%andb_prop Ht]%andb_prop.
  apply Bool.negb_true_iff in Hl, Ht.
  unfold slugify. rewrite toLowerCase_slug_chars by done.
  rewrite replace_run_collapse_from.
  rewrite (proj1 (collapse_from_fixed s Hc Hs)).
  rewrite replace_edge_strip by done.
  by rewrite strip_leading_id, strip_trailing_fixed.
Qed.

End SlugShape.

Section SlugMore.
Import SlugSpec.

Lemma strip_trailing_empty (s : string) :
  strip_trailing s = "" -> all_chars Char.is_hyphen s = true.
Proof.
  induction s as [|c r IH]; [done|]. cbn [strip_trailing all_chars].
  destruct (strip_trailing r); [|done].
  destruct (Char.is_hyphen c); [|done]. intros _. by rewrite IH.
Qed.

Lemma strip_leading_hyphens (s : string) :
  all_chars Char.is_hyphen (strip_leading s) = true ->
  all_chars Char.is_hyphen s = true.
Proof.
  induction s as [|c r IH]; [done|]. cbn [strip_leading all_chars].
  destruct (Char.is_hyphen c) eqn:E; [exact IH|].
  cbn [all_chars]. by rewrite E.
Qed.

Lemma collapse_from_hyphens (b : bool) (s : string) :
  all_chars Char.is_hyphen (collapse_from b s) = true ->
  all_chars Char.not_slug_char s = true.
Proof.
  revert b. induction s as [|c r IH]; intros b; [done|].
  cbn [collapse_from all_chars].
  destruct (Char.not_slug_char c) eqn:Hc.
  - destruct b; cbn [all_chars andb]; [apply IH|].
    intros [_ H]%andb_prop. by eapply IH.
  - cbn [all_chars]. by rewrite (slug_char_not_hyphen c Hc).
Qed.

Lemma slugify_empty_inv (title : string) :
  slugify title = "" ->
  all_chars Char.not_slug_char (toLowerCase title) = true.
Proof.
  unfold slugify. rewrite replace_run_collapse_from.
  rewrite replace_edge_strip by apply collapse_from_sparse.
  intros H%strip_trailing_empty%strip_leading_hyphens.
  by eapply collapse_from_hyphens.
Qed.

Lemma length_collapse_from (b : bool) (s : string) :
  String.length (collapse_from b s) <= String.length s.
Proof.
  revert b. induction s as [|c r IH]; intros b; [done|].
  pose proof (IH true). pose proof (IH false).
  cbn [collapse_from]. destruct (Char.not_slug_char c), b;
    cbn [String.length]; lia.
Qed.

Lemma length_strip_leading (s : string) :
  String.length (strip_leading s) <= String.length s.
Proof.
  induction s as [|c r IH]; [done|]. cbn [strip_leading].
  destruct (Char.is_hyphen c); cbn [String.length]; lia.
Qed.

Lemma length_strip_trailing (s : string) :
  String.length (strip_trailing s) <= String.length s.
Proof.
  induction s as [|c r IH]; [done|]. cbn [strip_trailing].
  destruct (strip_trailing r); [destruct (Char.is_hyphen c)|];
    cbn [String.length] in *; lia.
Qed.

End SlugMore.

Section SlugWords.
Import SlugSpec.

Lemma slug_words_nonempty (s : string) :
  Forall (fun w => w <> "") (slug_words s).
Proof.
  induction s as [|c r IH]; [constructor|]. cbn [slug_words].
  destruct (Char.is_slug_char c); [|done].
  destruct (slug_words r) as [|w ws]; [by repeat constructor|].
  apply Forall_cons in IH as [Hw Hws].
  destruct (starts_slug r); by repeat constructor.
Qed.

Lemma slug_words_starts (s : string) :
  starts_slug s = true -> slug_words s <> [].
Proof.
  destruct s as [|c r]; [done|]. cbn [starts_slug slug_words]. intros ->.
  destruct (slug_words r); [done|]. by destruct (starts_slug r).
Qed.

Lemma join_words_empty (s : string) :
  join "-" (slug_words s) = "" <-> slug_words s = [].
Proof.
  split; [|by intros ->]. pose proof (slug_words_nonempty s) as H.
  destruct (slug_words s) as [|w ws]; [done|].
  apply Forall_cons in H as [Hw _]. intros E.
  by apply (join_cons_nonempty "-" w ws) in Hw.
Qed.

Lemma join_words_cons (c : ascii) (r : string) :
  Char.is_slug_char c = true ->
  join "-" (slug_words (String c r))
  = String c (if starts_slug r then join "-" (slug_words r)
              else if String.eqb (join "-" (slug_words r)) "" then ""
                   else "-" +:+ join "-" (slug_words r)).
Proof.
  intros Hc. cbn [slug_words]. rewrite Hc.
  destruct (starts_slug r) eqn:Hr.
  - pose proof (slug_words_starts r Hr).
    destruct (slug_words r) as [|w ws]; [done|].
    destruct ws; [done|]. by rewrite !join_cons_cons, append_cons.
  - pose proof (join_words_empty r) as He.
    destruct (slug_words r) as [|w ws]; [done|].
    destruct (String.eqb _ "") eqn:E.
    + apply String.eqb_eq in E. by apply He in E.
    + by rewrite (join_cons_cons "-" (String c "")).
Qed.

Lemma strip_trailing_keep (c : ascii) (x : string) :
  Char.is_hyphen c = false ->
  strip_trailing (String c x) = String c (strip_trailing x).
Proof. intros Hc. cbn [strip_trailing]. rewrite Hc. by destruct (strip_trailing x). Qed.

Lemma strip_trailing_hyphen (x : string) :
  strip_trailing (String "-" x)
  = if String.eqb (strip_trailing x) "" then ""
    else "-" +:+ strip_trailing x.
Proof. cbn [strip_trailing]. by destruct (strip_trailing x). Qed.

Lemma strip_leading_collapse_from (s : string) :
  strip_leading (collapse_from false s) = collapse_from true s.
Proof.
  destruct s as [|c r]; [done|]. cbn [collapse_from].
  destruct (Char.not_slug_char c) eqn:Hc.
  - cbn [strip_leading]. change (Char.is_hyphen "-") with true. cbv iota.
    apply strip_leading_id, collapse_from_sparse.
  - cbn [strip_leading]. by rewrite (slug_char_not_hyphen c Hc).
Qed.

(** The two scans, with trailing hyphens stripped, against the words. *)
Lemma strip_trailing_collapse_words (s : string) :
  strip_trailing (collapse_from true s) = join "-" (slug_words s)
  /\ strip_trailing (collapse_from false s)
     = if starts_slug s then join "-" (slug_words s)
       else if String.eqb (join "-" (slug_words s)) "" then ""
            else "-" +:+ join "-" (slug_words s).
Proof.
  induction s as [|c r [IH1 IH2]]; [done|].
  cbn [collapse_from starts_slug]. unfold Char.not_slug_char.
  destruct (Char.is_slug_char c) eqn:Hc; cbn [negb].
  - rewrite (strip_trailing_keep c)
      by (apply slug_char_not_hyphen; unfold Char.not_slug_char; by rewrite Hc).
    by rewrite IH2, join_words_cons.
  - rewrite strip_trailing_hyphen, IH1. cbn [slug_words]. by rewrite Hc.
Qed.

Lemma slugify_words (title : string) :
  slugify title = join "-" (slug_words (toLowerCase title)).
Proof.
  unfold slugify. rewrite replace_run_collapse_from.
  rewrite replace_edge_strip by apply collapse_from_sparse.
  rewrite strip_leading_collapse_from. apply strip_trailing_collapse_words.
Qed.

Lemma toLowerCase_app (a b : string) :
  toLowerCase (a +:+ b) = toLowerCase a +:+ toLowerCase b.
Proof.
  induction a as [|c a IH]; [done|].
  rewrite append_cons. cbn [toLowerCase]. by rewrite IH, append_cons.
Qed.

Lemma slug_words_skip (sep b : string) :
  all_chars Char.not_slug_char sep = true ->
  slug_words (sep +:+ b) = slug_words b.
Proof.
  induction sep as [|c r IH]; [done|]. cbn [all_chars].
  intros [Hc Hr]%andb_prop. rewrite append_cons. cbn [slug_words].
  unfold Char.not_slug_char in Hc. apply Bool.negb_true_iff in Hc.
  rewrite Hc. by apply IH.
Qed.

Lemma slug_words_app (x y : string) :
  starts_slug y = false ->
  slug_words (x +:+ y) = slug_words x ++ slug_words y.
Proof.
  intros Hy. induction x as [|c x IH]; [done|].
  rewrite append_cons. cbn [slug_words]. rewrite IH.
  destruct (Char.is_slug_char c); [|done].
  destruct x as [|d x].
  - rewrite append_empty_l, Hy. cbn [slug_words app].
    by destruct (slug_words y).
  - rewrite append_cons. cbn [starts_slug].
    destruct (slug_words (String d x)) as [|w ws] eqn:Ew.
    + destruct (Char.is_slug_char d) eqn:Hd.
      * by pose proof (slug_words_starts (String d x) Hd).
      * cbn [app]. by destruct (slug_words y).
    + cbn [app]. by destruct (Char.is_slug_char d).
Qed.

Lemma join_glue (l1 l2 : list string) :
  Forall (fun w => w <> "") l1 -> Forall (fun w => w <> "") l2 ->
  join "-" (l1 ++ l2) = glue (join "-" l1) (join "-" l2).
Proof.
  intros H1 H2. unfold glue.
  destruct l1 as [|x l1]; [done|].
  apply Forall_cons in H1 as [Hx _].
  pose proof (join_cons_nonempty "-" x l1 Hx) as N1.
  destruct (String.eqb (join "-" (x :: l1)) "") eqn:E1;
    [by apply String.eqb_eq in E1|].
  destruct l2 as [|y l2]; [by rewrite app_nil_r|].
  apply Forall_cons in H2 as [Hy _].
  pose proof (join_cons_nonempty "-" y l2 Hy) as N2.
  destruct (String.eqb (join "-" (y :: l2)) "") eqn:E2;
    [by apply String.eqb_eq in E2|].
  by apply join_app.
Qed.

Lemma slugify_app (a sep b : string) :
  sep <> "" ->
  all_chars Char.not_slug_char (toLowerCase sep) = true ->
  slugify (a +:+ sep +:+ b) = glue (slugify a) (slugify b).
Proof.
  intros Hne Hsep. rewrite !slugify_words, !toLowerCase_app.
  assert (starts_slug (toLowerCase sep +:+ toLowerCase b) = false) as Hs.
  { destruct sep as [|c r]; [done|]. cbn [toLowerCase all_chars] in *.
    apply andb_prop in Hsep as [Hc _]. rewrite append_cons.
    cbn [starts_slug]. unfold Char.not_slug_char in Hc.
    by apply Bool.negb_true_iff in Hc. }
  rewrite slug_words_app, slug_words_skip by done.
  apply join_glue; apply slug_words_nonempty.
Qed.

End SlugWords.

Lemma slug_words_chars (s : string) :
  Forall (fun w => all_chars Char.is_slug_char w = true) (slug_words s).
Proof.
  induction s as [|c r IH]; [constructor|]. cbn [slug_words].
  destruct (Char.is_slug_char c) eqn:Hc; [|done].
  destruct (slug_words r) as [|w ws]; [repeat constructor; cbn; by rewrite Hc|].
  apply Forall_cons in IH as [Hw Hws].
  destruct (starts_slug r); repeat constructor; cbn [all_chars];
    rewrite ?Hc; done.
Qed.

(** The slug is URL-safe: it is made of characters of [[a-z0-9]] and
    hyphens, holds no two hyphens in a row, and neither starts nor ends
    with a hyphen. *)
Theorem slug_shape (title : string) :
  all_chars slug_or_hyphen (slugify title) = true
  /\ sparse (slugify title) = true
  /\ starts_hyphen (slugify title) = false
  /\ ends_hyphen (slugify title) = false.
Proof.
  pose proof (slugify_is_slug title) as H. unfold is_slug in H.
  apply andb_prop in H as [[[Hc Hs]%andb_prop Hl]%andb_prop Ht].
  apply Bool.negb_true_iff in Hl, Ht. done.
Qed.

(** The strings that [slugify] leaves as they are are exactly the strings
    of the shape of a slug; so slugifying a slug changes nothing. *)
Theorem slugify_fixed_points (s : string) :
  (slugify s = s <-> is_slug s = true)
  /\ slugify (slugify s) = slugify s.
Proof.
  split; [split|].
  - intros <-. apply slugify_is_slug.
  - apply slugify_fixed.
  - apply slugify_fixed, slugify_is_slug.
Qed.

(** The slug is empty exactly when no character of the lower-cased title
    is in [[a-z0-9]]. *)
Theorem slugify_empty_iff (title : string) :
  slugify title = ""
  <-> all_chars Char.not_slug_char (toLowerCase title) = true.
Proof. split; [apply slugify_empty_inv | apply slugify_all_outside]. Qed.

(** The slug is never longer than the lower-cased title: the two
    replacements only remove characters or put one hyphen for a run. *)
Theorem slugify_length (title : string) :
  String.length (slugify title) <= String.length (toLowerCase title).
Proof.
  unfold slugify. rewrite replace_run_collapse_from.
  rewrite replace_edge_strip by apply collapse_from_sparse.
  pose proof (length_strip_trailing
                (SlugSpec.strip_leading
                   (collapse_from false (toLowerCase title)))).
  pose proof (length_strip_leading (collapse_from false (toLowerCase title))).
  pose proof (length_collapse_from false (toLowerCase title)).
  lia.
Qed.

(** The slug is the words of the lower-cased title joined by hyphens,
    where the words are the maximal runs of characters of [[a-z0-9]]:
    each is non-empty and holds only such characters. *)
Theorem slugify_joins_words (title : string) :
  slugify title = join "-" (slug_words (toLowerCase title))
  /\ Forall (fun w => w <> "" /\ all_chars Char.is_slug_char w = true)
       (slug_words (toLowerCase title)).
Proof.
  split; [apply slugify_words|].
  apply Forall_and. split; [apply slug_words_nonempty|apply slug_words_chars].
Qed.

(** A title in two parts around a non-empty separator without any
    character of [[a-z0-9]]: its slug is the slugs of the parts with one
    hyphen between them, or the slug of one part when the other has an
    empty slug. *)
Theorem slugify_separator (a sep b : string) :
  sep <> "" ->
  all_chars Char.not_slug_char (toLowerCase sep) = true ->
  slugify (a +:+ sep +:+ b) = glue (slugify a) (slugify b).
Proof. apply slugify_app. Qed.

Lemma slugify_separator_witness :
  " - " <> ""
  /\ all_chars Char.not_slug_char (toLowerCase " - ") = true
  /\ slugify ("Dota2" +:+ " - " +:+ "Senate!")
     = glue (slugify "Dota2") (slugify "Senate!")
  /\ glue (slugify "Dota2") (slugify "Senate!") = "dota2-senate".
Proof.
  split; [discriminate|]. split; [reflexivity|].
  split; [|reflexivity].
  apply (slugify_separator "Dota2" " - " "Senate!"); [discriminate|reflexivity].
Defined.

(** Whatever the title, the file name is a single path segment: the slug
    followed by ".mdx", without a slash, and neither empty nor [.] nor
    [..].  A title cannot send the file out of the directory of its
    category. *)
Theorem filename_is_one_segment (p : Problem) :
  all_chars not_slash (filename p) = true
  /\ filename p <> ""
  /\ filename p <> "."
  /\ filename p <> ".."
  /\ exists slug : string,
       filename p = slug +:+ ".mdx"
       /\ all_chars slug_or_hyphen slug = true.
Proof.
  pose proof (filename_plain p) as H. unfold plain_segment in H.
  apply andb_prop in H as [[[H1 H2]%andb_prop H3]%andb_prop H4].
  apply Bool.negb_true_iff in H2, H3, H4.
  split; [done|].
  split; [intros E; by rewrite E in H2|].
  split; [intros E; by rewrite E in H3|].
  split; [intros E; by rewrite E in H4|].
  exists (slugify (title p)). split; [done|apply slugify_chars].
Qed.

(** The disk after a run that completes, path by path: what the path
    held before the run, and for a path that held nothing the rendered
    text of the first descriptor that targets it, if there is one. *)
Theorem final_disk (h : Host) (ps : list Problem) (w w' : World) :
  scaffold h ps w = Ok tt w' ->
  forall path : string,
    disk w' !! path
    = match disk w !! path with
      | Some n => Some n
      | None => (fun p => File (generateProblemTemplate p))
                  <$> first_target h path ps
      end.
Proof.
  intros [Hd _]%scaffold_ok_report path. rewrite Hd.
  apply disk_after_lookup.
Qed.

Lemma final_disk_witness :
  scaffold demo_host demo_problems stack_dir_only = Ok tt after_first_run
  /\ disk after_first_run !! removing_stars_path
     = Some (File (generateProblemTemplate removing_stars))
  /\ disk after_first_run !! "/repo/docs/leetcode-75/stack"
     = Some Dir
  /\ disk after_first_run !! "/repo/docs/leetcode-75/stack/other.mdx" = None.
Proof.
  split; [vm_compute; reflexivity|].
  pose proof (final_disk demo_host demo_problems stack_dir_only
                after_first_run) as H.
  assert (scaffold demo_host demo_problems stack_dir_only
          = Ok tt after_first_run) as Hrun by (vm_compute; reflexivity).
  specialize (H Hrun).
  split; [rewrite H; vm_compute; reflexivity|].
  split; rewrite H; vm_compute; reflexivity.
Defined.

(** The counts of a run that completes: created plus skipped is the
    number of descriptors, the disk grows by the number created, and one
    line per descriptor plus the summary line is printed. *)
Theorem run_counts (h : Host) (ps : list Problem) (w w' : World) :
  scaffold h ps w = Ok tt w' ->
  (counts h (disk w) ps).1 + (counts h (disk w) ps).2 = length ps
  /\ size (disk w') = size (disk w) + (counts h (disk w) ps).1
  /\ length (printed w w') = S (length ps).
Proof.
  intros [Hd Hp]%scaffold_ok_report. rewrite Hd, Hp.
  destruct (report_counts h (disk w) ps) as [H1 H2].
  unfold counts. cbn [fst snd]. split; [done|]. split; [done|].
  rewrite length_app, length_fmap, report_length. cbn. lia.
Qed.

Lemma run_counts_witness :
  scaffold demo_host demo_problems stack_dir_only = Ok tt after_first_run
  /\ counts demo_host (disk stack_dir_only) demo_problems = (2, 1)
  /\ size (disk after_first_run) = size (disk stack_dir_only) + 2.
Proof.
  split; [vm_compute; reflexivity|]. split; [vm_compute; reflexivity|].
  destruct (run_counts demo_host demo_problems stack_dir_only
              after_first_run) as (_ & Hsize & _); [vm_compute; reflexivity|].
  rewrite Hsize. vm_compute. reflexivity.
Defined.

(** When no two descriptors share a target, the order of the descriptors
    does not matter for the files: two runs that complete, from the same
    disk, on the descriptors in two orders, leave the same disk. *)
Theorem order_independent (h : Host) (ps ps' : list Problem)
    (w w1 w2 : World) :
  ps ≡ₚ ps' ->
  NoDup (filepath h <$> ps) ->
  scaffold h ps w = Ok tt w1 ->
  scaffold h ps' w = Ok tt w2 ->
  disk w1 = disk w2.
Proof.
  intros Hperm Hnd [-> _]%scaffold_ok_report [-> _]%scaffold_ok_report.
  by apply disk_after_perm.
Qed.

Lemma order_independent_witness :
  disk (world_of (scaffold demo_host [removing_stars; punctuation_only]
                    stack_dir_only))
  = disk (world_of (scaffold demo_host [punctuation_only; removing_stars]
                      stack_dir_only)).
Proof.
  apply (order_independent demo_host
           [removing_stars; punctuation_only]
           [punctuation_only; removing_stars] stack_dir_only).
  - apply perm_swap.
  - refine (bool_decide_unpack
              (NoDup (filepath demo_host
                        <$> [removing_stars; punctuation_only])) _).
    vm_compute. exact I.
  - vm_compute. reflexivity.
  - vm_compute. reflexivity.
Defined.

(** The table can grow between runs.  After a run on a list of
    descriptors has completed, a run on a longer list that starts with
    the same descriptors reports each of them as skipped, goes on with the
    new ones, and leaves the disk that one run on the longer list would
    have left from the start. *)
Theorem run_after_prefix_run (h : Host) (pre post : list Problem)
    (w w1 w2 : World) :
  scaffold h pre w = Ok tt w1 ->
  scaffold h (pre ++ post) w1 = Ok tt w2 ->
  disk w2 = disk_after h (disk w) (pre ++ post)
  /\ (forall w0 : World,
        scaffold h (pre ++ post) w = Ok tt w0 -> disk w0 = disk w2)
  /\ printed w1 w2
     = ((fun p => skipped_line (filepath h p)) <$> pre)
       ++ (outcome_line <$> report h (disk w1) post) ++ [summary_line].
Proof.
  intros [Hd1 _]%scaffold_ok_report [Hd2 Hp2]%scaffold_ok_report.
  assert (disk w2 = disk_after h (disk w) (pre ++ post)) as Heq
    by (rewrite Hd2, Hd1; apply disk_after_again).
  split; [exact Heq|]. split.
  - intros w0 [-> _]%scaffold_ok_report. by rewrite Heq.
  - rewrite Hp2, report_app, fmap_app, <- app_assoc.
    assert (forall p, p ∈ pre -> is_Some (disk w1 !! filepath h p)) as Hall
      by (intros p Hp; rewrite Hd1; by apply disk_after_targets).
    destruct (report_all_exist h (disk w1) pre Hall) as [-> ->].
    by rewrite <- list_fmap_compose.
Qed.

Lemma run_after_prefix_run_witness :
  scaffold demo_host [removing_stars] stack_dir_only
    = Ok tt (world_of (scaffold demo_host [removing_stars] stack_dir_only))
  /\ disk (world_of
             (scaffold demo_host ([removing_stars] ++ [punctuation_only])
                (world_of (scaffold demo_host [removing_stars]
                             stack_dir_only))))
     = disk_after demo_host (disk stack_dir_only)
         ([removing_stars] ++ [punctuation_only]).
Proof.
  split; [vm_compute; reflexivity|].
  eapply (run_after_prefix_run demo_host [removing_stars] [punctuation_only]
            stack_dir_only); vm_compute; reflexivity.
Defined.

(** The rendered text links to the problem page of the slug, whose
    characters are those of a slug, and repeats the title in the heading
    and in the comment of the code block. *)
Theorem template_links_to_slug (p : Problem) :
  occurs_in
    ("[View on LeetCode](https://leetcode.com/problems/" +:+
     slugify (title p) +:+ "/)")
    (generateProblemTemplate p)
  /\ all_chars slug_or_hyphen (slugify (title p)) = true
  /\ occurs_in ("# " +:+ title p +:+ LF) (generateProblemTemplate p)
  /\ occurs_in (" * Solution for " +:+ title p +:+ LF)
       (generateProblemTemplate p).
Proof.
  assert (exists rest, template_sections = "/)" +:+ rest) as [rest Hrest]
    by (eexists; reflexivity).
  assert (exists front, template_sections = front +:+ " * Solution for ")
    as [front Hfront].
  { exists (String.substring 0 (String.length template_sections - 16)
              template_sections).
    vm_compute. reflexivity. }
  assert (exists rest', template_tail = LF +:+ rest') as [rest' Htail]
    by (eexists; reflexivity).
  split; [|split; [apply slugify_chars|split]].
  - unfold generateProblemTemplate. rewrite Hrest.
    eapply (occurs_in_intro
              ("---" +:+ LF +:+
               "sidebar_position: " +:+ number_to_string (position p) +:+ LF +:+
               "title: " +:+ dquote +:+ title p +:+ dquote +:+ LF +:+
               "tags: [" +:+ tagsString p +:+ "]" +:+ LF +:+
               "---" +:+ LF +:+ LF +:+ "# " +:+ title p +:+ LF +:+ LF +:+
               "> **Difficulty:** " +:+ difficulty p +:+ LF +:+ LF)).
    rewrite !append_assoc. reflexivity.
  - unfold generateProblemTemplate.
    eapply (occurs_in_intro
              ("---" +:+ LF +:+
               "sidebar_position: " +:+ number_to_string (position p) +:+ LF +:+
               "title: " +:+ dquote +:+ title p +:+ dquote +:+ LF +:+
               "tags: [" +:+ tagsString p +:+ "]" +:+ LF +:+
               "---" +:+ LF +:+ LF)).
    rewrite !append_assoc. reflexivity.
  - unfold generateProblemTemplate. rewrite Hfront, Htail.
    eapply (occurs_in_intro
              ("---" +:+ LF +:+
               "sidebar_position: " +:+ number_to_string (position p) +:+ LF +:+
               "title: " +:+ dquote +:+ title p +:+ dquote +:+ LF +:+
               "tags: [" +:+ tagsString p +:+ "]" +:+ LF +:+
               "---" +:+ LF +:+ LF +:+ "# " +:+ title p +:+ LF +:+ LF +:+
               "> **Difficulty:** " +:+ difficulty p +:+ LF +:+ LF +:+
               "[View on LeetCode](https://leetcode.com/problems/" +:+
               slugify (title p) +:+ front)).
    rewrite !append_assoc. reflexivity.
Qed.

Lemma created_line_inj (p q : string) : created_line p = created_line q -> p = q.
Proof. unfold created_line. apply String.app_inj. Qed.

Lemma skipped_line_inj (p q : string) : skipped_line p = skipped_line q -> p = q.
Proof. unfold skipped_line. apply String.app_inj. Qed.

Lemma created_not_skipped (p q : string) : created_line p <> skipped_line q.
Proof. unfold created_line, skipped_line. cbv [String.append]. congruence. Qed.

Lemma outcome_not_summary (o : Outcome) : outcome_line o <> summary_line.
Proof.
  destruct o; unfold outcome_line, created_line, skipped_line, summary_line, LF;
    cbv [String.append]; congruence.
Qed.

Lemma outcome_line_inj (o o' : Outcome) :
  outcome_line o = outcome_line o' -> o = o'.
Proof.
  destruct o as [p|p], o' as [q|q]; cbn [outcome_line]; intros H.
  - by apply created_line_inj in H as ->.
  - by apply created_not_skipped in H.
  - symmetry in H. by apply created_not_skipped in H.
  - by apply skipped_line_inj in H as ->.
Qed.

Lemma length_append (a b : string) :
  String.length (a +:+ b) = String.length a + String.length b.
Proof.
  induction a as [|c a IH]; [done|]. rewrite append_cons. cbn. by rewrite IH.
Qed.

Lemma append_inv_tail (a b t : string) : a +:+ t = b +:+ t -> a = b.
Proof.
  revert b. induction a as [|c a IH]; intros [|d b] H.
  - done.
  - apply (f_equal String.length) in H.
    rewrite append_empty_l, append_cons in H. cbn in H.
    rewrite length_append in H. lia.
  - apply (f_equal String.length) in H.
    rewrite append_empty_l, append_cons in H. cbn in H.
    rewrite length_append in H. lia.
  - rewrite !append_cons in H. injection H as -> H. f_equal. by apply IH.
Qed.

Lemma stdout_bytes_app (l1 l2 : list string) :
  stdout_bytes (l1 ++ l2) = stdout_bytes l1 +:+ stdout_bytes l2.
Proof.
  induction l1 as [|x l1 IH]; [done|]. cbn [app stdout_bytes foldr].
  fold (stdout_bytes (l1 ++ l2)). fold (stdout_bytes l1).
  by rewrite IH, !append_assoc.
Qed.

Lemma line_end_inj (x y r1 r2 : string) :
  all_chars not_newline x = true -> all_chars not_newline y = true ->
  x +:+ LF +:+ r1 = y +:+ LF +:+ r2 -> x = y /\ r1 = r2.
Proof.
  change (LF +:+ r1) with (String "010" r1).
  change (LF +:+ r2) with (String "010" r2).
  revert y. induction x as [|c x IH]; intros [|d y] Hx Hy H;
    rewrite ?append_empty_l, ?append_cons in H; cbn [all_chars] in *.
  - by injection H as ->.
  - injection H as <- _. by apply andb_prop in Hy as [Hd _].
  - injection H as -> _. by apply andb_prop in Hx as [Hc _].
  - apply andb_prop in Hx as [_ Hx]. apply andb_prop in Hy as [_ Hy].
    injection H as -> H. by destruct (IH y Hx Hy H) as [-> ->].
Qed.

Lemma stdout_bytes_inj (l1 l2 : list string) :
  Forall (fun line => all_chars not_newline line = true) l1 ->
  Forall (fun line => all_chars not_newline line = true) l2 ->
  stdout_bytes l1 = stdout_bytes l2 -> l1 = l2.
Proof.
  intros H1. revert l2. induction H1 as [|x l1 Hx Hl1 IH];
    intros [|y l2] H2; cbn [stdout_bytes foldr].
  - done.
  - destruct y; rewrite ?append_empty_l, ?append_cons; done.
  - destruct x; rewrite ?append_empty_l, ?append_cons; done.
  - apply Forall_cons in H2 as [Hy Hl2]. intros H.
    apply line_end_inj in H as [-> H]; [|done..].
    f_equal. by apply IH.
Qed.

Lemma outcome_line_no_newline (o : Outcome) :
  all_chars not_newline (outcome_path o) = true ->
  all_chars not_newline (outcome_line o) = true.
Proof.
  destruct o as [path|path]; cbn [outcome_path outcome_line];
    unfold created_line, skipped_line; rewrite all_chars_app; by intros ->.
Qed.

Lemma report_paths (h : Host) (P : string -> Prop) (d : gmap string node)
    (ps : list Problem) :
  Forall (fun p => P (filepath h p)) ps ->
  Forall (fun o => P (outcome_path o)) (report h d ps).
Proof.
  intros H. revert d. induction H as [|p ps Hp Hps IH]; intros d;
    [constructor|]. cbn [report]. case_bool_decide; by constructor.
Qed.

(** The bytes of the standard output determine the report.  When no
    target path holds a line feed, the bytes that a completed run wrote
    are the bytes of the lines of one list of outcomes only (among the
    lists whose paths hold no line feed): the outcomes of the run. *)
Theorem log_determines_report (h : Host) (ps : list Problem)
    (w w' : World) (outs : list Outcome) :
  scaffold h ps w = Ok tt w' ->
  Forall (fun p => all_chars not_newline (filepath h p) = true) ps ->
  Forall (fun o => all_chars not_newline (outcome_path o) = true) outs ->
  stdout_bytes (printed w w')
    = stdout_bytes ((outcome_line <$> outs) ++ [summary_line]) ->
  outs = report h (disk w) ps.
Proof.
  intros [_ Hp]%scaffold_ok_report Hps Houts. rewrite Hp.
  rewrite !stdout_bytes_app. intros H%append_inv_tail.
  apply stdout_bytes_inj in H.
  - symmetry. revert H. generalize (report h (disk w) ps). intros l. revert l.
    induction outs as [|o outs IH]; intros [|o' l]; cbn; try done.
    apply Forall_cons in Houts as [_ Houts].
    intros [= Ho Hl]. f_equal; [by apply outcome_line_inj|by apply IH].
  - apply Forall_fmap. eapply Forall_impl.
    + apply (report_paths h (fun path => all_chars not_newline path = true)).
      exact Hps.
    + apply outcome_line_no_newline.
  - apply Forall_fmap. eapply Forall_impl; [exact Houts|].
    apply outcome_line_no_newline.
Qed.

Lemma log_determines_report_witness :
  scaffold demo_host demo_problems stack_dir_only = Ok tt after_first_run
  /\ [created removing_stars_path; skipped removing_stars_path;
      created "/repo/docs/leetcode-75/stack/.mdx"]
     = report demo_host (disk stack_dir_only) demo_problems.
Proof.
  split; [vm_compute; reflexivity|].
  apply (log_determines_report demo_host demo_problems stack_dir_only
           after_first_run).
  - vm_compute. reflexivity.
  - repeat constructor.
  - repeat constructor.
  - vm_compute. reflexivity.
Defined.


Example slug_words_examples :
  slug_words "n-th tribonacci  number!" = ["n"; "th"; "tribonacci"; "number"]
  /\ slug_words "?!" = []
  /\ glue "" "b" = "b" /\ glue "a" "" = "a" /\ glue "a" "b" = "a-b"
  /\ is_slug "n-th-tribonacci-number" = true
  /\ is_slug "a--b" = false /\ is_slug "-a" = false /\ is_slug "A" = false.
Proof. repeat split; reflexivity. Qed.
